(** * The service host of package [core] (service_core.go)

    A shallow embedding of [ServiceHost], [ServiceHostContainer] and
    [*serviceCore] with its accessors, followed by the properties of the
    host context: lazily initialised metrics scope, pure accessors,
    delegation through the container, and the behaviour of concurrent
    callers of [Metrics]. *)

From stdpp Require Import base option list gmap strings.
From Stdlib Require Import ZArith Lia.

Local Open Scope nat_scope.

(** ** Values of the Go program *)

(** Addresses of heap objects. *)
Definition loc := nat.

(** A Go interface value: [None] is the nil interface, [Some v] carries a
    dynamic value. *)
Definition iface (T : Type) := option T.

(** Types of package [core] and of its imports that service_core.go uses
    but does not declare: [ServiceState], the dynamic values behind the
    interfaces [Observer], [config.ConfigurationProvider] and [ulog.Log],
    the struct [ulog.Configuration] and the values stored under
    [interface{}] in the items bag. *)
Class Collaborators := {
  ServiceState : Type;
  Observer : Type;
  ConfigurationProvider : Type;
  Log : Type;
  LogConfiguration : Type;
  Any : Type
}.

(** [serviceConfig] is declared in another file of the package; these are
    the four fields service_core.go reads. *)
Record serviceConfig := {
  ServiceName : string;
  ServiceDescription : string;
  ServiceOwner : string;
  ServiceRoles : list string
}.

(** [sync.Mutex]: the zero value is unlocked, and a mutex has no owner. *)
Record Mutex := { locked : bool }.
Definition zeroMutex : Mutex := {| locked := false |}.

(** *** The tally library, as far as [Metrics] uses it *)

Inductive StatsReporter :=
| NullStatsReporter
| BackendReporter (backend : nat).

(** [time.Duration] counts nanoseconds. *)
Definition Duration := Z.
Definition Second : Duration := 1000000000%Z.

(** The object behind a root [tally.Scope]; it records the arguments of
    [tally.NewRootScope]. *)
Record rootScope := {
  prefix : string;
  tags : option (list (string * string));
  reporter : StatsReporter;
  interval : Duration
}.

(** [tally.Scope] is an interface; its dynamic value is a reference to a
    scope object. *)
Definition Scope := iface loc.

(** The scope that line 115 constructs. *)
Definition nullScope : rootScope :=
  {| prefix := ""; tags := None; reporter := NullStatsReporter;
     interval := Second |}.

Section Host.
Context `{Collaborators}.

(** ** [serviceCore] (lines 63-74) *)

Record serviceCore := {
  standardConfig : serviceConfig;
  roles : list string;
  state : ServiceState;
  configProvider : iface ConfigurationProvider;
  scopeMux : Mutex;
  scope : Scope;
  observer : iface Observer;
  items : option loc;   (* a Go map is a reference; [None] is the nil map *)
  logConfig : LogConfiguration;
  log : iface Log
}.

Definition set_scopeMux (m : Mutex) (s : serviceCore) : serviceCore :=
  {| standardConfig := standardConfig s; roles := roles s; state := state s;
     configProvider := configProvider s; scopeMux := m; scope := scope s;
     observer := observer s; items := items s; logConfig := logConfig s;
     log := log s |}.

Definition set_scope (r : Scope) (s : serviceCore) : serviceCore :=
  {| standardConfig := standardConfig s; roles := roles s; state := state s;
     configProvider := configProvider s; scopeMux := scopeMux s; scope := r;
     observer := observer s; items := items s; logConfig := logConfig s;
     log := log s |}.

Definition set_roles (r : list string) (s : serviceCore) : serviceCore :=
  {| standardConfig := standardConfig s; roles := r; state := state s;
     configProvider := configProvider s; scopeMux := scopeMux s;
     scope := scope s; observer := observer s; items := items s;
     logConfig := logConfig s; log := log s |}.

Definition set_state (v : ServiceState) (s : serviceCore) : serviceCore :=
  {| standardConfig := standardConfig s; roles := roles s; state := v;
     configProvider := configProvider s; scopeMux := scopeMux s;
     scope := scope s; observer := observer s; items := items s;
     logConfig := logConfig s; log := log s |}.

(** Two structs that agree on every field except, possibly, [scope]. *)
Definition same_but_scope (s s' : serviceCore) : Prop :=
  standardConfig s' = standardConfig s /\ roles s' = roles s /\
  state s' = state s /\ configProvider s' = configProvider s /\
  scopeMux s' = scopeMux s /\ observer s' = observer s /\
  items s' = items s /\ logConfig s' = logConfig s /\ log s' = log s.

(** ** The heap

    Methods have the pointer receiver [s *serviceCore], so the structs live
    in a store and a method is given an address.  The scope objects that
    tally allocates and the maps behind [items] live beside them. *)
Record World := {
  cores : gmap loc serviceCore;
  scopes : list rootScope;
  bags : gmap loc (gmap string Any)
}.

Definition with_cores (c : gmap loc serviceCore) (w : World) : World :=
  {| cores := c; scopes := scopes w; bags := bags w |}.

Definition with_scopes (l : list rootScope) (w : World) : World :=
  {| cores := cores w; scopes := l; bags := bags w |}.

(** ** Outcomes of a call

    A call returns a value and the new heap, panics (nil dereference,
    unlock of an unlocked mutex), or blocks on a held mutex. *)
Inductive outcome (A : Type) :=
| Ret (a : A) (w : World)
| Panic
| Blocked.
Arguments Ret {A} a w.
Arguments Panic {A}.
Arguments Blocked {A}.

Definition M (A : Type) := World -> outcome A.

Definition ret {A} (a : A) : M A := fun w => Ret a w.

Definition bind {A B} (k : A -> M B) (m : M A) : M B :=
  fun w => match m w with
           | Ret a w' => k a w'
           | Panic => Panic
           | Blocked => Blocked
           end.

#[global] Instance M_ret : MRet M := @ret.
#[global] Instance M_bind : MBind M := @bind.
#[global] Instance M_fmap : FMap M := fun A B f => bind (fun a => ret (f a)).

(** Read the struct behind [p]; a nil pointer panics. *)
Definition deref (p : loc) : M serviceCore :=
  fun w => match cores w !! p with
           | Some s => Ret s w
           | None => Panic
           end.

(** Write the struct behind [p]. *)
Definition assign (p : loc) (f : serviceCore -> serviceCore) : M unit :=
  fun w => match cores w !! p with
           | Some s => Ret tt (with_cores (<[p := f s]> (cores w)) w)
           | None => Panic
           end.

(** [s.scopeMux.Lock()] *)
Definition Lock (p : loc) : M unit :=
  fun w => match cores w !! p with
           | Some s =>
               if locked (scopeMux s) then Blocked
               else Ret tt (with_cores
                              (<[p := set_scopeMux {| locked := true |} s]>
                                 (cores w)) w)
           | None => Panic
           end.

(** [s.scopeMux.Unlock()]; unlocking an unlocked mutex is a fatal error. *)
Definition Unlock (p : loc) : M unit :=
  fun w => match cores w !! p with
           | Some s =>
               if locked (scopeMux s)
               then Ret tt (with_cores
                              (<[p := set_scopeMux {| locked := false |} s]>
                                 (cores w)) w)
               else Panic
           | None => Panic
           end.

(** [defer d] around a body: [d] runs once the body has evaluated its
    result. *)
Definition deferring {A} (d : M unit) (body : M A) : M A :=
  a ← body; d ;; ret a.

(** [tally.NewRootScope(prefix, tags, reporter, interval)] allocates a
    scope object and returns a non-nil [Scope] referring to it. *)
Definition NewRootScope (pre : string) (tg : option (list (string * string)))
    (rep : StatsReporter) (iv : Duration) : M Scope :=
  fun w =>
    Ret (Some (length (scopes w)))
        (with_scopes (scopes w ++ [ {| prefix := pre; tags := tg;
                                       reporter := rep; interval := iv |} ]) w).

(** ** The methods of [*serviceCore] (lines 78-131) *)

Definition Name (p : loc) : M string :=
  s ← deref p; ret (ServiceName (standardConfig s)).

Definition Description (p : loc) : M string :=
  s ← deref p; ret (ServiceDescription (standardConfig s)).

Definition Owner (p : loc) : M string :=
  s ← deref p; ret (ServiceOwner (standardConfig s)).

Definition State (p : loc) : M ServiceState :=
  s ← deref p; ret (state s).

Definition Roles (p : loc) : M (list string) :=
  s ← deref p; ret (ServiceRoles (standardConfig s)).

Definition Items (p : loc) : M (option loc) :=
  s ← deref p; ret (items s).

Definition Metrics (p : loc) : M Scope :=
  Lock p ;;
  deferring (Unlock p)
    (s ← deref p;
     (match scope s with
      | None =>
          r ← NewRootScope "" None NullStatsReporter Second;
          assign p (set_scope r)
      | Some _ => ret tt
      end) ;;
     s' ← deref p;
     ret (scope s')).

(** The method [Observer] (line 121); the name [Observer] is taken by the
    interface type. *)
Definition GetObserver (p : loc) : M (iface Observer) :=
  s ← deref p; ret (observer s).

Definition Config (p : loc) : M (iface ConfigurationProvider) :=
  s ← deref p; ret (configProvider s).

Definition Logger (p : loc) : M (iface Log) :=
  s ← deref p; ret (log s).

(** Modelled from the spec: the write of the lifecycle state.
    service_core.go only reads [state]; the spec (data model, P5) has the
    owning process set it, which for the struct field is the assignment
    [s.state = v] through the pointer. *)
Definition SetState (p : loc) (v : ServiceState) : M unit :=
  assign p (set_state v).

(** ** Method sets and dynamic dispatch *)

Inductive selector :=
| sel_Name | sel_Description | sel_Owner | sel_State | sel_Roles
| sel_Items | sel_Metrics | sel_Observer | sel_Config | sel_Logger.

#[global] Instance selector_eq_dec : EqDecision selector.
Proof. solve_decision. Defined.

(** The result of a call, tagged with the method's result type. *)
Inductive value :=
| VString (x : string)
| VStrings (x : list string)
| VState (x : ServiceState)
| VItems (x : option loc)
| VScope (x : Scope)
| VObserver (x : iface Observer)
| VConfig (x : iface ConfigurationProvider)
| VLog (x : iface Log).

(** The methods declared on [*serviceCore]. *)
Definition serviceCore_methods : list selector :=
  [sel_Name; sel_Description; sel_Owner; sel_State; sel_Roles;
   sel_Items; sel_Metrics; sel_Observer; sel_Config; sel_Logger].

(** [p.m()] for [p : *serviceCore]. *)
Definition call (m : selector) (p : loc) : M value :=
  match m with
  | sel_Name => VString <$> Name p
  | sel_Description => VString <$> Description p
  | sel_Owner => VString <$> Owner p
  | sel_State => VState <$> State p
  | sel_Roles => VStrings <$> Roles p
  | sel_Items => VItems <$> Items p
  | sel_Metrics => VScope <$> Metrics p
  | sel_Observer => VObserver <$> GetObserver p
  | sel_Config => VConfig <$> Config p
  | sel_Logger => VLog <$> Logger p
  end.

(** The struct field a method reads. *)
Definition field_of (m : selector) (s : serviceCore) : value :=
  match m with
  | sel_Name => VString (ServiceName (standardConfig s))
  | sel_Description => VString (ServiceDescription (standardConfig s))
  | sel_Owner => VString (ServiceOwner (standardConfig s))
  | sel_State => VState (state s)
  | sel_Roles => VStrings (ServiceRoles (standardConfig s))
  | sel_Items => VItems (items s)
  | sel_Metrics => VScope (scope s)
  | sel_Observer => VObserver (observer s)
  | sel_Config => VConfig (configProvider s)
  | sel_Logger => VLog (log s)
  end.

(** A sequence of calls on the same receiver, results in call order. *)
Fixpoint calls (ms : list selector) (p : loc) : M (list value) :=
  match ms with
  | [] => mret []
  | m :: ms' => v ← call m p; vs ← calls ms' p; mret (v :: vs)
  end.

(** The interface [ServiceHost] (lines 34-44): its method set, in
    declaration order. *)
Definition ServiceHost_methods : list selector :=
  [sel_Name; sel_Description; sel_Roles; sel_State; sel_Metrics;
   sel_Observer; sel_Config; sel_Items; sel_Logger].

(** A value of type [ServiceHost]; the implementation in this file is
    [*serviceCore] (line 76), so the dynamic value is its address. *)
Definition ServiceHost := iface loc.

(** [h.m()] for [h : ServiceHost]: [None] when [m] is not in the method
    set of the interface (the selector does not type-check), otherwise the
    dispatched call, which panics on the nil interface. *)
Definition host_call (h : ServiceHost) (m : selector) : option (M value) :=
  if decide (m ∈ ServiceHost_methods) then
    Some (match h with
          | Some p => call m p
          | None => fun _ => Panic
          end)
  else None.

(** ** [ServiceHostContainer] (lines 46-56) *)

Record ServiceHostContainer := { embedded : ServiceHost }.

(** The zero value of the struct. *)
Definition emptyContainer : ServiceHostContainer := {| embedded := None |}.

Definition SetContainer (sh : ServiceHost) (c : ServiceHostContainer)
  : ServiceHostContainer :=
  {| embedded := sh |}.

(** [c.m()] for a container [c]: the methods of the embedded interface
    are promoted to the struct, and no others. *)
Definition container_call (c : ServiceHostContainer) (m : selector)
  : option (M value) :=
  host_call (embedded c) m.

(** The accessors that the spec lists as reads of immutable fields. *)
Definition immutable_reads : list selector :=
  [sel_Name; sel_Description; sel_Owner; sel_Roles; sel_Config; sel_Logger].

(** The heap in which the struct behind [p] has [rs] in its [roles]
    field. *)
Definition with_roles (rs : list string) (p : loc) (w : World) : World :=
  with_cores (alter (set_roles rs) p (cores w)) w.

(** An outcome with its heap transformed. *)
Definition on_world {A} (f : World -> World) (o : outcome A) : outcome A :=
  match o with
  | Ret a w => Ret a (f w)
  | Panic => Panic
  | Blocked => Blocked
  end.

(** ** What a caller observes of an outcome *)

Inductive result (A : Type) :=
| Returns (a : A)
| Panics
| Blocks.
Arguments Returns {A} a.
Arguments Panics {A}.
Arguments Blocks {A}.

Definition result_of {A} (o : outcome A) : result A :=
  match o with
  | Ret a _ => Returns a
  | Panic => Panics
  | Blocked => Blocks
  end.

(** A host context between calls: [p] points to a [serviceCore] whose
    mutex nobody holds. *)
Definition HostContext (w : World) (p : loc) : Prop :=
  exists s, cores w !! p = Some s /\ locked (scopeMux s) = false.

(** The composite literal [&serviceCore{...}]: every field but the mutex
    can be given; the mutex starts as its zero value. *)
Definition newServiceCore (cfg : serviceConfig) (rs : list string)
    (st : ServiceState) (cp : iface ConfigurationProvider) (sc : Scope)
    (ob : iface Observer) (it : option loc) (lc : LogConfiguration)
    (lg : iface Log) : serviceCore :=
  {| standardConfig := cfg; roles := rs; state := st; configProvider := cp;
     scopeMux := zeroMutex; scope := sc; observer := ob; items := it;
     logConfig := lc; log := lg |}.

(** ** Concurrent callers of [Metrics]

    Goroutines that call [Metrics] on the same host, interleaved one
    atomic action at a time.  All accesses to [scope] are made with the
    mutex held, so the program has no data race and its executions are
    the sequentially consistent interleavings modelled here. *)

(** Where a goroutine stands inside [Metrics]. *)
Inductive pc :=
| AtLock                (* line 110: about to call s.scopeMux.Lock() *)
| AtCheck               (* line 114: about to read s.scope for the nil test *)
| AtNew                 (* line 115: about to call tally.NewRootScope *)
| AtStore (r : Scope)   (* line 115: about to assign the new scope to s.scope *)
| AtReturn              (* line 118: about to read s.scope for the result *)
| AtUnlock (r : Scope)  (* line 111: result evaluated, deferred Unlock pending *)
| Done (r : Scope).     (* returned r *)

(** What a step does to the shared memory. *)
Inductive event :=
| EvLock
| EvLoad (r : Scope)
| EvNew (r : Scope)
| EvStore (r : Scope)
| EvUnlock.

(** One atomic action of a goroutine at [k]; a goroutine that has
    returned takes no further step. *)
Definition step (p : loc) (k : pc) : M (pc * event) :=
  match k with
  | AtLock => Lock p ;; mret (AtCheck, EvLock)
  | AtCheck =>
      s ← deref p;
      mret (match scope s with None => AtNew | Some _ => AtReturn end,
            EvLoad (scope s))
  | AtNew =>
      r ← NewRootScope "" None NullStatsReporter Second;
      mret (AtStore r, EvNew r)
  | AtStore r => assign p (set_scope r) ;; mret (AtReturn, EvStore r)
  | AtReturn => s ← deref p; mret (AtUnlock (scope s), EvLoad (scope s))
  | AtUnlock r => Unlock p ;; mret (Done r, EvUnlock)
  | Done _ => fun _ => Blocked
  end.

Definition is_done (k : pc) : bool :=
  match k with Done _ => true | _ => false end.

(** The result of the call has been read from the slot. *)
Definition has_result (k : pc) : bool :=
  match k with AtUnlock _ | Done _ => true | _ => false end.

(** Between [Lock] and [Unlock]. *)
Definition inCS (k : pc) : bool :=
  match k with
  | AtCheck | AtNew | AtStore _ | AtReturn | AtUnlock _ => true
  | AtLock | Done _ => false
  end.

(** The goroutines, the heap they share and the events so far, each
    with the index of the goroutine that made it. *)
Record config := {
  threads : list pc;
  heap : World;
  trace : list (nat * event)
}.

(** The scheduler picks goroutine [i].  A goroutine that has returned,
    or waits for the mutex, or does not exist, leaves the configuration
    as it is; a panic ends the program ([None]). *)
Definition sched_step (p : loc) (i : nat) (c : config) : option config :=
  match threads c !! i with
  | None => Some c
  | Some k =>
      match step p k (heap c) with
      | Ret (k', e) w' =>
          Some {| threads := <[i := k']> (threads c);
                  heap := w';
                  trace := trace c ++ [(i, e)] |}
      | Blocked => Some c
      | Panic => None
      end
  end.

Fixpoint run (p : loc) (sched : list nat) (c : config) : option config :=
  match sched with
  | [] => Some c
  | i :: rest =>
      match sched_step p i c with
      | Some c' => run p rest c'
      | None => None
      end
  end.

(** [n] goroutines about to call [Metrics]. *)
Definition init (n : nat) (w : World) : config :=
  {| threads := replicate n AtLock; heap := w; trace := [] |}.

Definition finished (c : config) : Prop :=
  Forall (fun k => is_done k = true) (threads c).

(** Steps a goroutine at [k] may still take. *)
Definition todo (k : pc) : nat :=
  match k with
  | AtLock => 6 | AtCheck => 5 | AtNew => 4 | AtStore _ => 3
  | AtReturn => 2 | AtUnlock _ => 1 | Done _ => 0
  end.

Definition todo_sum (l : list pc) : nat := sum_list (todo <$> l).

(** Happens-before of the Go memory model on the events of a trace,
    given by their positions: program order within a goroutine, an
    [Unlock] before every later [Lock] of the mutex, and transitivity. *)
Inductive happens_before (T : list (nat * event)) : nat -> nat -> Prop :=
| hb_program a b i e e' :
    a < b -> T !! a = Some (i, e) -> T !! b = Some (i, e') ->
    happens_before T a b
| hb_mutex a b i j :
    a < b -> T !! a = Some (i, EvUnlock) -> T !! b = Some (j, EvLock) ->
    happens_before T a b
| hb_trans a b c :
    happens_before T a b -> happens_before T b c -> happens_before T a c.

(** A goroutine at [k] can take its step now. *)
Definition enabled (s : serviceCore) (k : pc) : Prop :=
  match k with
  | AtLock => locked (scopeMux s) = false
  | AtUnlock _ => locked (scopeMux s) = true
  | Done _ => False
  | _ => True
  end.

(** *** The three phases of a run

    [S0] is the scope heap at the start, and the scope that the first
    goroutine to take the mutex constructs gets the reference
    [Some (length S0)]. *)

(** The first goroutine, [i0], between its [Lock] and its [Unlock]. *)
Definition init_pc (S0 : list rootScope) (i0 : nat) (k : pc)
    (s : serviceCore) (S : list rootScope) (T : list (nat * event)) : Prop :=
  let r0 := Some (length S0) in
  match k with
  | AtCheck | AtNew => scope s = None /\ S = S0
  | AtStore r => r = r0 /\ scope s = None /\ S = S0 ++ [nullScope]
  | AtReturn =>
      scope s = r0 /\ S = S0 ++ [nullScope] /\
      exists a, T !! a = Some (i0, EvStore r0)
  | AtUnlock r =>
      r = r0 /\ scope s = r0 /\ S = S0 ++ [nullScope] /\
      (exists a, T !! a = Some (i0, EvStore r0)) /\
      (exists d, T !! d = Some (i0, EvLoad r0))
  | AtLock | Done _ => False
  end.

(** A goroutine once the slot holds [r0]. *)
Definition ready_pc (r0 : Scope) (k : pc) : Prop :=
  match k with
  | AtLock | AtCheck | AtReturn => True
  | AtUnlock r | Done r => r = r0
  | AtNew | AtStore _ => False
  end.

(** The mutex is held exactly when one goroutine is between [Lock] and
    [Unlock], and then by that one only. *)
Definition mutex_ok (s : serviceCore) (l : list pc) : Prop :=
  if locked (scopeMux s)
  then exists h k, l !! h = Some k /\ inCS k = true /\
         forall j kj, l !! j = Some kj -> inCS kj = true -> j = h
  else forall j kj, l !! j = Some kj -> inCS kj = false.

Inductive phase (p : loc) (n : nat) (w0 : World) : config -> Prop :=
| Fresh : phase p n w0 (init n w0)
| Initialising c i0 k s
    (Hlen : length (threads c) = n)
    (Hi0 : threads c !! i0 = Some k)
    (Hothers : forall j kj, j <> i0 -> threads c !! j = Some kj -> kj = AtLock)
    (Hcore : cores (heap c) !! p = Some s)
    (Hheld : locked (scopeMux s) = true)
    (Hmine : forall d j e, trace c !! d = Some (j, e) -> j = i0)
    (Hpc : init_pc (scopes w0) i0 k s (scopes (heap c)) (trace c)) :
    phase p n w0 c
| Ready c i0 s a b
    (Hlen : length (threads c) = n)
    (Hi0 : threads c !! i0 = Some (Done (Some (length (scopes w0)))))
    (Hcore : cores (heap c) !! p = Some s)
    (Hscope : scope s = Some (length (scopes w0)))
    (Hscopes : scopes (heap c) = scopes w0 ++ [nullScope])
    (Hab : a < b)
    (Hstore : trace c !! a = Some (i0, EvStore (Some (length (scopes w0)))))
    (Hunlock : trace c !! b = Some (i0, EvUnlock))
    (Hpcs : forall j k, threads c !! j = Some k ->
              ready_pc (Some (length (scopes w0))) k)
    (Hmutex : mutex_ok s (threads c))
    (Hlocked : forall j k, j <> i0 -> threads c !! j = Some k -> k <> AtLock ->
                 exists l, b < l /\ trace c !! l = Some (j, EvLock))
    (Hloads : forall j d x, j <> i0 -> trace c !! d = Some (j, EvLoad x) ->
                x = Some (length (scopes w0)) /\
                exists l, b < l /\ l < d /\ trace c !! l = Some (j, EvLock))
    (Hread : forall j k, threads c !! j = Some k -> has_result k = true ->
               exists d,
                 trace c !! d = Some (j, EvLoad (Some (length (scopes w0))))) :
    phase p n w0 c.

(** *** What one step does

    The step of a goroutine at [k], on a struct [s] and a scope heap [S]:
    the next position [k'], the event [e], the struct [s'] and the scope
    heap [S'] it leaves. *)
Definition transition (k : pc) (s : serviceCore) (S : list rootScope)
    (k' : pc) (e : event) (s' : serviceCore) (S' : list rootScope) : Prop :=
  match k with
  | AtLock =>
      locked (scopeMux s) = false /\ k' = AtCheck /\ e = EvLock /\
      s' = set_scopeMux {| locked := true |} s /\ S' = S
  | AtCheck =>
      k' = match scope s with None => AtNew | Some _ => AtReturn end /\
      e = EvLoad (scope s) /\ s' = s /\ S' = S
  | AtNew =>
      k' = AtStore (Some (length S)) /\ e = EvNew (Some (length S)) /\
      s' = s /\ S' = S ++ [nullScope]
  | AtStore r =>
      k' = AtReturn /\ e = EvStore r /\ s' = set_scope r s /\ S' = S
  | AtReturn =>
      k' = AtUnlock (scope s) /\ e = EvLoad (scope s) /\ s' = s /\ S' = S
  | AtUnlock r =>
      locked (scopeMux s) = true /\ k' = Done r /\ e = EvUnlock /\
      s' = set_scopeMux {| locked := false |} s /\ S' = S
  | Done _ => False
  end.

(** Two structs that agree on every field except, possibly, [scope] and
    the state of [scopeMux]. *)
Definition same_but_scope_mutex (s s' : serviceCore) : Prop :=
  standardConfig s' = standardConfig s /\ roles s' = roles s /\
  state s' = state s /\ configProvider s' = configProvider s /\
  observer s' = observer s /\ items s' = items s /\
  logConfig s' = logConfig s /\ log s' = log s.

(** The receiver is a struct whose mutex agrees with the positions of the
    goroutines. *)
Definition mutex_inv (p : loc) (c : config) : Prop :=
  exists s, cores (heap c) !! p = Some s /\ mutex_ok s (threads c).

(** Goroutines on a host whose slot already holds [r], with scope heap
    [S0]. *)
Definition configured_inv (p : loc) (r : loc) (S0 : list rootScope)
    (c : config) : Prop :=
  exists s,
    cores (heap c) !! p = Some s /\ mutex_ok s (threads c) /\
    scope s = Some r /\ scopes (heap c) = S0 /\
    forall j k, threads c !! j = Some k -> ready_pc (Some r) k.

End Host.

Arguments Ret {_ A} a w.
Arguments Panic {_ A}.
Arguments Blocked {_ A}.
Arguments Returns {A} a.
Arguments Panics {A}.
Arguments Blocks {A}.

(** ** A concrete host: the "checkout" service of the scenarios *)

Definition demoCollaborators : Collaborators :=
  {| ServiceState := nat; Observer := nat; ConfigurationProvider := nat;
     Log := nat; LogConfiguration := unit; Any := nat |}.

Definition checkoutConfig : serviceConfig :=
  {| ServiceName := "checkout"; ServiceDescription := "takes orders";
     ServiceOwner := "payments"; ServiceRoles := ["writer"; "api"] |}.

(** No observer, provider, logger, items or metrics backend given. *)
Definition checkoutCore : @serviceCore demoCollaborators :=
  @newServiceCore demoCollaborators
    checkoutConfig ["ignored"] 0 None None None None tt None.

Definition checkoutAddr : loc := 1.

Definition checkoutWorld : @World demoCollaborators :=
  {| cores := {[ checkoutAddr := checkoutCore ]}; scopes := []; bags := ∅ |}.

(** The same host after setup has installed a scope with a real backend. *)
Definition backendScope : rootScope :=
  {| prefix := "checkout"; tags := None; reporter := BackendReporter 7;
     interval := Second |}.

Definition configuredWorld : @World demoCollaborators :=
  {| cores := {[ checkoutAddr := set_scope (Some 0) checkoutCore ]};
     scopes := [backendScope]; bags := ∅ |}.

(** The checkout host while a goroutine is inside [Metrics]. *)
Definition heldWorld : @World demoCollaborators :=
  {| cores := {[ checkoutAddr :=
                   set_scopeMux {| locked := true |} checkoutCore ]};
     scopes := []; bags := ∅ |}.

(** A second host, beside the checkout host. *)
Definition billingAddr : loc := 2.

Definition billingCore : @serviceCore demoCollaborators :=
  @newServiceCore demoCollaborators
    {| ServiceName := "billing"; ServiceDescription := "sends invoices";
       ServiceOwner := "payments"; ServiceRoles := ["writer"] |}
    [] 1 None None None None tt None.

Definition twoHostsWorld : @World demoCollaborators :=
  {| cores := {[ checkoutAddr := checkoutCore; billingAddr := billingCore ]};
     scopes := []; bags := ∅ |}.

(** * Properties *)

Section HostFacts.
Context `{Collaborators}.

Implicit Types (w : World) (p : loc) (s : serviceCore) (m : selector).

Ltac unfold_M :=
  unfold call, Name, Description, Owner, State, Roles, Items, Metrics,
    GetObserver, Config, Logger, deferring, fmap, M_fmap, mbind, M_bind,
    bind, mret, M_ret, ret, deref, assign, Lock, Unlock, NewRootScope in *.

(** *** Record plumbing *)

Lemma mutex_eta (mu : Mutex) : {| locked := locked mu |} = mu.
Proof. by destruct mu. Qed.

Lemma set_scopeMux_id s : set_scopeMux (scopeMux s) s = s.
Proof. by destruct s. Qed.

Lemma set_scope_id s : set_scope (scope s) s = s.
Proof. by destruct s. Qed.

Lemma with_cores_id w : with_cores (cores w) w = w.
Proof. by destruct w. Qed.

Lemma unlocked_zero s :
  locked (scopeMux s) = false -> scopeMux s = {| locked := false |}.
Proof. intros E. rewrite <- E. by rewrite mutex_eta. Qed.

(** *** The accessors that only read *)

Lemma call_read w p s m :
  cores w !! p = Some s -> m <> sel_Metrics ->
  call m p w = Ret (field_of m s) w.
Proof.
  intros Hp Hm. destruct m; try congruence; unfold_M; by rewrite Hp.
Qed.

Lemma call_nil w p m : cores w !! p = None -> call m p w = Panic.
Proof. intros Hp. destruct m; unfold_M; by rewrite Hp. Qed.

(** *** [Metrics], run from a free mutex *)

Lemma Metrics_spec w p s :
  cores w !! p = Some s -> locked (scopeMux s) = false ->
  Metrics p w =
    match scope s with
    | Some r => Ret (Some r) w
    | None =>
        Ret (Some (length (scopes w)))
            {| cores := <[p := set_scope (Some (length (scopes w))) s]> (cores w);
               scopes := scopes w ++ [nullScope];
               bags := bags w |}
    end.
Proof.
  intros Hp Hl. apply unlocked_zero in Hl as Hz.
  unfold_M. rewrite Hp, Hl. simpl.
  rewrite lookup_insert_eq. simpl.
  destruct (scope s) as [r|] eqn:Hs; simpl;
    repeat (rewrite ?lookup_insert_eq, ?Hs, ?insert_insert_eq; simpl);
    unfold with_cores, with_scopes; simpl;
    rewrite ?insert_insert_eq; f_equal.
  - destruct w as [c sc b]; simpl in *. f_equal.
    apply insert_id. rewrite Hp. f_equal.
    destruct s; simpl in *. unfold set_scopeMux; simpl. by subst.
  - f_equal. f_equal.
    destruct s; simpl in *. unfold set_scopeMux, set_scope; simpl. by subst.
Qed.

Lemma Metrics_frame w p s :
  cores w !! p = Some s -> locked (scopeMux s) = false ->
  exists r w',
    Metrics p w = Ret (Some r) w' /\
    cores w' = <[p := set_scope (Some r) s]> (cores w) /\
    bags w' = bags w /\
    (scope s = None ->
       r = length (scopes w) /\ scopes w' = scopes w ++ [nullScope]) /\
    (forall r0, scope s = Some r0 -> r = r0 /\ w' = w).
Proof.
  intros Hp Hl. rewrite (Metrics_spec w p s Hp Hl).
  destruct (scope s) as [r0|] eqn:Hs.
  - exists r0, w. repeat split; try congruence.
    symmetry. apply insert_id. rewrite Hp, <- Hs. by rewrite set_scope_id.
  - eexists _, _. repeat split; try done.
Qed.

Lemma same_but_scope_refl s : same_but_scope s s.
Proof. by repeat split. Qed.

Lemma same_but_scope_set r s : same_but_scope s (set_scope r s).
Proof. by repeat split. Qed.

Lemma same_but_scope_trans s1 s2 s3 :
  same_but_scope s1 s2 -> same_but_scope s2 s3 -> same_but_scope s1 s3.
Proof. unfold same_but_scope. intuition congruence. Qed.

Lemma same_but_scope_field m s s' :
  same_but_scope s s' -> m <> sel_Metrics -> field_of m s' = field_of m s.
Proof.
  unfold same_but_scope. intros (?&?&?&?&?&?&?&?&?) Hm.
  destruct m; simpl; congruence.
Qed.

(** Any call from a free mutex returns, keeps the mutex free and changes
    at most the scope slot. *)
Lemma call_frame w p s m :
  cores w !! p = Some s -> locked (scopeMux s) = false ->
  exists v w' s',
    call m p w = Ret v w' /\ cores w' !! p = Some s' /\
    same_but_scope s s' /\
    (forall r, scope s = Some r -> w' = w /\ v = field_of m s).
Proof.
  intros Hp Hl. destruct (decide (m = sel_Metrics)) as [->|Hm].
  - destruct (Metrics_frame w p s Hp Hl) as (r & w' & HM & Hc & _ & _ & Hsome).
    exists (VScope (Some r)), w', (set_scope (Some r) s).
    split; [|split; [|split]].
    + unfold call, fmap, M_fmap, bind, ret. by rewrite HM.
    + rewrite Hc. apply lookup_insert_eq.
    + apply same_but_scope_set.
    + intros r0 Hr0. destruct (Hsome r0 Hr0) as [-> ->]. simpl.
      by rewrite Hr0.
  - exists (field_of m s), w, s. rewrite (call_read w p s m Hp Hm).
    eauto using same_but_scope_refl.
Qed.

Lemma calls_frame ms : forall w p s,
  cores w !! p = Some s -> locked (scopeMux s) = false ->
  exists vs w' s',
    calls ms p w = Ret vs w' /\ cores w' !! p = Some s' /\
    same_but_scope s s' /\
    (forall r, scope s = Some r ->
       w' = w /\ vs = map (fun m => field_of m s) ms).
Proof.
  induction ms as [|m ms IH]; intros w p s Hp Hl.
  - exists [], w, s. simpl. eauto 10 using same_but_scope_refl.
  - destruct (call_frame w p s m Hp Hl) as (v & w1 & s1 & Hc & Hp1 & Hs1 & Hst1).
    assert (Hl1 : locked (scopeMux s1) = false).
    { destruct Hs1 as (_&_&_&_&->&_). done. }
    destruct (IH w1 p s1 Hp1 Hl1) as (vs & w2 & s2 & Hcs & Hp2 & Hs2 & Hst2).
    exists (v :: vs), w2, s2. split; [|split; [|split]].
    + simpl. unfold mbind, M_bind, bind. rewrite Hc, Hcs. done.
    + done.
    + eauto using same_but_scope_trans.
    + intros r Hr. destruct (Hst1 r Hr) as [-> ->].
      assert (s1 = s) by congruence. subst s1.
      destruct (Hst2 r Hr) as [-> ->]. done.
Qed.

(** A freshly constructed struct, once stored, is a host context, and
    every call leaves it one. *)
Lemma newServiceCore_HostContext w p cfg rs st cp sc ob it lc lg :
  HostContext
    (with_cores (<[p := newServiceCore cfg rs st cp sc ob it lc lg]> (cores w)) w)
    p.
Proof. eexists. simpl. rewrite lookup_insert_eq. done. Qed.

Lemma calls_HostContext ms w p :
  HostContext w p ->
  exists vs w', calls ms p w = Ret vs w' /\ HostContext w' p.
Proof.
  intros (s & Hp & Hl).
  destruct (calls_frame ms w p s Hp Hl) as (vs & w' & s' & Hc & Hp' & Hs & _).
  exists vs, w'. split; [done|]. exists s'. split; [done|].
  destruct Hs as (_&_&_&_&->&_). done.
Qed.

(** ** Metrics *)

(** C1. [Metrics()] on a host context returns a non-nil scope. With an
    empty slot it constructs the null-reporting scope, stores the
    reference in the slot and returns it; with a filled slot it returns
    the stored reference and changes nothing. *)
Theorem Metrics_returns_scope w p s :
  cores w !! p = Some s -> locked (scopeMux s) = false ->
  exists r w',
    Metrics p w = Ret (Some r) w' /\
    cores w' !! p = Some (set_scope (Some r) s) /\
    match scope s with
    | None =>
        r = length (scopes w) /\
        scopes w' = scopes w ++ [nullScope] /\
        scopes w' !! r = Some nullScope /\
        reporter nullScope = NullStatsReporter
    | Some r0 => r = r0 /\ w' = w
    end.
Proof.
  intros Hp Hl.
  destruct (Metrics_frame w p s Hp Hl) as (r & w' & HM & Hc & _ & Hn & Hf).
  exists r, w'. split; [done|]. split.
  - rewrite Hc. apply lookup_insert_eq.
  - destruct (scope s) as [r0|].
    + by apply Hf.
    + destruct (Hn eq_refl) as [-> Hsc]. rewrite Hsc.
      repeat split. rewrite lookup_app_r by done.
      by rewrite Nat.sub_diag.
Qed.

(** C2. Once the slot holds a scope [r], whether it was there before any
    call or was put there by a first [Metrics()] call, any sequence of
    calls on the host leaves the heap as it is (nothing is constructed or
    stored) and every [Metrics()] among them returns [r]. *)
Theorem Metrics_scope_stable w p s ms :
  cores w !! p = Some s -> locked (scopeMux s) = false ->
  (forall r, scope s = Some r ->
     exists vs, calls ms p w = Ret vs w /\
                forall x, VScope x ∈ vs -> x = Some r) /\
  (forall r w1, Metrics p w = Ret r w1 ->
     exists vs, calls ms p w1 = Ret vs w1 /\
                forall x, VScope x ∈ vs -> x = r).
Proof.
  intros Hp Hl.
  assert (Hgen : forall w0 s0 r, cores w0 !! p = Some s0 ->
            locked (scopeMux s0) = false -> scope s0 = Some r ->
            exists vs, calls ms p w0 = Ret vs w0 /\
                       forall x, VScope x ∈ vs -> x = Some r).
  { intros w0 s0 r Hp0 Hl0 Hr.
    destruct (calls_frame ms w0 p s0 Hp0 Hl0) as (vs & w' & s' & Hc & _ & _ & Hst).
    destruct (Hst r Hr) as [-> ->]. eexists. split; [done|].
    intros x Hx. apply list_elem_of_fmap in Hx as (m & Hm & _).
    destruct m; simpl in Hm; try discriminate. congruence. }
  split.
  - intros r Hr. by apply (Hgen w s r).
  - intros r w1 HM.
    destruct (Metrics_frame w p s Hp Hl) as (r' & w' & HM' & Hc & _).
    rewrite HM in HM'. injection HM' as -> ->.
    apply (Hgen w' (set_scope (Some r') s) r'); try done.
    rewrite Hc. apply lookup_insert_eq.
Qed.

(** ** Plain accessors *)

(** C5. [Roles()] returns the configured role list, and a host
    configured with name "checkout" and roles ["writer","api"] answers
    [Name()] with "checkout" and [Roles()] with that list in order. *)
Theorem Name_Roles_configured w p s :
  cores w !! p = Some s ->
  Roles p w = Ret (ServiceRoles (standardConfig s)) w /\
  (ServiceName (standardConfig s) = "checkout" ->
   ServiceRoles (standardConfig s) = ["writer"; "api"] ->
   Name p w = Ret "checkout" w /\ Roles p w = Ret ["writer"; "api"] w).
Proof.
  intros Hp. split.
  - unfold_M. by rewrite Hp.
  - intros Hn Hr. unfold_M. rewrite Hp. by rewrite Hn, Hr.
Qed.

(** C6. [Name], [Description], [Owner], [Roles], [Config] and [Logger]
    return the same value before and after any sequence of calls on the
    host, and leave the heap alone. *)
Theorem immutable_reads_stable w p s m ms :
  cores w !! p = Some s -> locked (scopeMux s) = false ->
  m ∈ immutable_reads ->
  exists v vs w',
    call m p w = Ret v w /\
    calls ms p w = Ret vs w' /\
    call m p w' = Ret v w'.
Proof.
  intros Hp Hl Hm.
  assert (Hne : m <> sel_Metrics).
  { intros ->. unfold immutable_reads in Hm.
    rewrite !elem_of_cons, elem_of_nil in Hm. intuition discriminate. }
  destruct (calls_frame ms w p s Hp Hl) as (vs & w' & s' & Hc & Hp' & Hs & _).
  exists (field_of m s), vs, w'. split; [|split].
  - by apply call_read.
  - done.
  - rewrite (call_read w' p s' m Hp' Hne). f_equal.
    by apply same_but_scope_field.
Qed.

(** C7. Every accessor returns on a host context; with no observer, no
    configuration provider and no logger, [Observer()], [Config()] and
    [Logger()] return the nil interface. *)
Theorem accessors_total w p s :
  cores w !! p = Some s -> locked (scopeMux s) = false ->
  (forall m, exists v w', call m p w = Ret v w') /\
  (observer s = None -> GetObserver p w = Ret None w) /\
  (configProvider s = None -> Config p w = Ret None w) /\
  (log s = None -> Logger p w = Ret None w).
Proof.
  intros Hp Hl. split; [|split; [|split]].
  - intros m. destruct (call_frame w p s m Hp Hl) as (v & w' & _ & Hc & _).
    eauto.
  - intros E. unfold_M. by rewrite Hp, E.
  - intros E. unfold_M. by rewrite Hp, E.
  - intros E. unfold_M. by rewrite Hp, E.
Qed.

(** C8. Every method but [Metrics] returns the field it reads and leaves
    the heap as it is; [Metrics] rewrites only the struct behind its
    receiver, and there only the scope slot: the other fields, the other
    structs and the item bags are as before the call. *)
Theorem only_Metrics_writes w p s :
  cores w !! p = Some s -> locked (scopeMux s) = false ->
  (forall m, m <> sel_Metrics -> call m p w = Ret (field_of m s) w) /\
  (exists r w' s',
     Metrics p w = Ret r w' /\
     cores w' !! p = Some s' /\
     same_but_scope s s' /\
     (forall q, q <> p -> cores w' !! q = cores w !! q) /\
     bags w' = bags w).
Proof.
  intros Hp Hl. split.
  - intros m Hm. by apply call_read.
  - destruct (Metrics_frame w p s Hp Hl) as (r & w' & HM & Hc & Hb & _).
    exists (Some r), w', (set_scope (Some r) s).
    split; [done|]. rewrite Hc. split; [apply lookup_insert_eq|].
    split; [apply same_but_scope_set|]. split; [|done].
    intros q Hq. by apply lookup_insert_ne.
Qed.

(** C9. After the lifecycle state is set to [v], [State()] returns [v],
    also when other calls on the host come in between. *)
Theorem State_reads_last_write w p s v ms :
  cores w !! p = Some s -> locked (scopeMux s) = false ->
  exists w1 vs w2,
    SetState p v w = Ret tt w1 /\
    State p w1 = Ret v w1 /\
    calls ms p w1 = Ret vs w2 /\
    State p w2 = Ret v w2.
Proof.
  intros Hp Hl.
  set (w1 := with_cores (<[p := set_state v s]> (cores w)) w).
  assert (Hp1 : cores w1 !! p = Some (set_state v s)).
  { unfold w1. simpl. apply lookup_insert_eq. }
  destruct (calls_frame ms w1 p (set_state v s) Hp1 Hl)
    as (vs & w2 & s2 & Hc & Hp2 & Hs & _).
  exists w1, vs, w2. split; [|split; [|split]].
  - unfold SetState, assign. by rewrite Hp.
  - unfold_M. by rewrite Hp1.
  - done.
  - unfold_M. rewrite Hp2. destruct Hs as (_&_&->&_). done.
Qed.

(** ** Steps of a goroutine *)

Lemma step_unfold p k w s :
  cores w !! p = Some s ->
  step p k w =
    match k with
    | AtLock =>
        if locked (scopeMux s) then Blocked
        else Ret (AtCheck, EvLock)
               (with_cores (<[p := set_scopeMux {| locked := true |} s]> (cores w)) w)
    | AtCheck =>
        Ret (match scope s with None => AtNew | Some _ => AtReturn end,
             EvLoad (scope s)) w
    | AtNew =>
        Ret (AtStore (Some (length (scopes w))),
             EvNew (Some (length (scopes w))))
            (with_scopes (scopes w ++ [nullScope]) w)
    | AtStore r =>
        Ret (AtReturn, EvStore r)
            (with_cores (<[p := set_scope r s]> (cores w)) w)
    | AtReturn => Ret (AtUnlock (scope s), EvLoad (scope s)) w
    | AtUnlock r =>
        if locked (scopeMux s)
        then Ret (Done r, EvUnlock)
               (with_cores (<[p := set_scopeMux {| locked := false |} s]> (cores w)) w)
        else Panic
    | Done _ => Blocked
    end.
Proof.
  intros Hp. destruct k; unfold step; unfold_M; rewrite ?Hp; try done;
    by destruct (locked (scopeMux s)).
Qed.

(** ** The [roles] field *)

Lemma with_roles_lookup rs p w :
  cores (with_roles rs p w) !! p = set_roles rs <$> cores w !! p.
Proof. unfold with_roles. simpl. apply lookup_alter_eq. Qed.

Lemma with_roles_insert rs p w s' :
  with_cores (<[p := set_roles rs s']> (cores (with_roles rs p w)))
             (with_roles rs p w)
  = with_roles rs p (with_cores (<[p := s']> (cores w)) w).
Proof.
  unfold with_roles, with_cores. simpl. f_equal. apply map_eq. intros q.
  destruct (decide (q = p)) as [->|Hq].
  - by rewrite lookup_insert_eq, lookup_alter_eq, lookup_insert_eq.
  - by rewrite lookup_insert_ne, !lookup_alter_ne, lookup_insert_ne.
Qed.

Lemma Metrics_with_roles rs p w :
  Metrics p (with_roles rs p w) = on_world (with_roles rs p) (Metrics p w).
Proof.
  destruct (cores w !! p) as [s|] eqn:Hp.
  2:{ unfold_M. rewrite with_roles_lookup, Hp. done. }
  destruct (locked (scopeMux s)) eqn:Hl.
  { unfold_M. rewrite with_roles_lookup, Hp. simpl. by rewrite Hl. }
  assert (Hp' : cores (with_roles rs p w) !! p = Some (set_roles rs s)).
  { by rewrite with_roles_lookup, Hp. }
  rewrite (Metrics_spec _ p _ Hp' Hl), (Metrics_spec w p s Hp Hl). simpl.
  destruct (scope s) as [r|]; simpl; [done|]. f_equal.
  pose proof (with_roles_insert rs p w (set_scope (Some (length (scopes w))) s))
    as E.
  unfold with_roles, with_cores in E |- *. simpl in E |- *.
  injection E as E. by rewrite <- E.
Qed.

Lemma call_with_roles rs m p w :
  call m p (with_roles rs p w) = on_world (with_roles rs p) (call m p w).
Proof.
  destruct (decide (m = sel_Metrics)) as [->|Hm].
  - unfold call, fmap, M_fmap, bind, ret. rewrite Metrics_with_roles.
    by destruct (Metrics p w).
  - destruct (cores w !! p) as [s|] eqn:Hp.
    + rewrite (call_read w p s m Hp Hm).
      rewrite (call_read _ p (set_roles rs s) m); [|by rewrite with_roles_lookup, Hp|done].
      simpl. by destruct m.
    + rewrite (call_nil w p m Hp). apply call_nil.
      by rewrite with_roles_lookup, Hp.
Qed.

Lemma calls_with_roles rs ms p : forall w,
  calls ms p (with_roles rs p w) = on_world (with_roles rs p) (calls ms p w).
Proof.
  induction ms as [|m ms IH]; intros w; [done|].
  simpl. unfold mbind, M_bind, bind. rewrite call_with_roles.
  destruct (call m p w) as [v w1| |]; simpl; try done.
  rewrite IH. by destruct (calls ms p w1).
Qed.

(** C10. [Roles()] returns [standardConfig.ServiceRoles]; replacing the
    [roles] field of the struct changes neither its result nor the
    result of any sequence of calls on the host. *)
Theorem Roles_ignores_roles_field w p s rs :
  cores w !! p = Some s ->
  Roles p w = Ret (ServiceRoles (standardConfig s)) w /\
  result_of (Roles p (with_roles rs p w)) = result_of (Roles p w) /\
  (forall ms,
     result_of (calls ms p (with_roles rs p w)) = result_of (calls ms p w)).
Proof.
  intros Hp. split; [|split].
  - unfold_M. by rewrite Hp.
  - unfold_M. rewrite with_roles_lookup, Hp. done.
  - intros ms. rewrite calls_with_roles. by destruct (calls ms p w).
Qed.

(** ** The container *)

Lemma ServiceHost_implemented m :
  m ∈ ServiceHost_methods -> m ∈ serviceCore_methods.
Proof.
  unfold ServiceHost_methods, serviceCore_methods.
  rewrite !elem_of_cons, !elem_of_nil. intuition (subst; auto 12).
Qed.

(** C4, as the code has it. After [SetContainer(h)], every method of
    the interface [ServiceHost] can be called on the container and is
    the call on [h]: on a [*serviceCore] it runs that method on the same
    struct, and a method that only reads returns the field. [Owner] is
    not in the interface, so the container has no such method. *)
Theorem container_delegates (h : ServiceHost) c m :
  m ∈ ServiceHost_methods ->
  exists f,
    container_call (SetContainer h c) m = Some f /\
    host_call h m = Some f /\
    (forall p, h = Some p -> f = call m p) /\
    (forall p w s, h = Some p -> cores w !! p = Some s -> m <> sel_Metrics ->
       f w = Ret (field_of m s) w) /\
    container_call (SetContainer h c) sel_Owner = None.
Proof.
  intros Hm. unfold container_call, SetContainer. simpl. unfold host_call.
  rewrite decide_True by done. eexists. split; [done|]. split; [done|].
  split; [|split].
  - by intros p ->.
  - intros p w s -> Hp Hne. by apply call_read.
  - apply decide_False. unfold ServiceHost_methods.
    rewrite !elem_of_cons, elem_of_nil. intuition discriminate.
Qed.

(** ** Concurrent callers *)

Section Concurrent.
Variables (p : loc) (n : nat) (w0 : World) (s0 : serviceCore).
Hypothesis Hp0 : cores w0 !! p = Some s0.
Hypothesis Hl0 : locked (scopeMux s0) = false.
Hypothesis Hs0 : scope s0 = None.

Implicit Types (c : config) (k : pc) (T : list (nat * event)).

Lemma snoc_lookup_inv T (y x : nat * event) d :
  (T ++ [y]) !! d = Some x ->
  T !! d = Some x \/ (d = length T /\ x = y).
Proof.
  rewrite lookup_snoc_Some. intros [[_ ?]|[? ?]]; [by left|right; eauto].
Qed.

Lemma snoc_lookup_new T (y : nat * event) : (T ++ [y]) !! length T = Some y.
Proof. by apply list_lookup_middle. Qed.

Lemma fresh_step i :
  exists c', sched_step p i (init n w0) = Some c' /\ phase p n w0 c'.
Proof.
  unfold sched_step. simpl.
  destruct (replicate n AtLock !! i) as [k|] eqn:Hi.
  2:{ eexists; split; [done|constructor]. }
  apply lookup_replicate in Hi as [-> Hi].
  rewrite (step_unfold p AtLock w0 s0 Hp0), Hl0.
  eexists; split; [done|].
  eapply (Initialising p n w0 _ i AtCheck (set_scopeMux {| locked := true |} s0));
    simpl.
  - by rewrite length_insert, length_replicate.
  - apply list_lookup_insert_eq. by rewrite length_replicate.
  - intros j kj Hj Hlk. rewrite list_lookup_insert_ne in Hlk by done.
    by apply lookup_replicate in Hlk as [-> _].
  - apply lookup_insert_eq.
  - done.
  - intros d j e Hd. destruct d; simpl in Hd; [congruence|done].
  - done.
Qed.

Lemma initialising_step i c i0 k s :
  length (threads c) = n ->
  threads c !! i0 = Some k ->
  (forall j kj, j <> i0 -> threads c !! j = Some kj -> kj = AtLock) ->
  cores (heap c) !! p = Some s ->
  locked (scopeMux s) = true ->
  (forall d j e, trace c !! d = Some (j, e) -> j = i0) ->
  init_pc (scopes w0) i0 k s (scopes (heap c)) (trace c) ->
  exists c', sched_step p i c = Some c' /\ phase p n w0 c'.
Proof.
  intros Hlen Hi0 Hothers Hcore Hheld Hmine Hpc.
  assert (Hsame : phase p n w0 c) by (eapply Initialising; eauto).
  unfold sched_step.
  destruct (threads c !! i) as [ki|] eqn:Hi; [|eauto].
  rewrite (step_unfold p ki (heap c) s Hcore).
  destruct (decide (i = i0)) as [->|Hne].
  2:{ rewrite (Hothers i ki Hne Hi), Hheld. eauto. }
  assert (ki = k) by congruence. subst ki.
  assert (Hlt : i0 < length (threads c)) by by eapply lookup_lt_Some.
  assert (Hkeep : forall k' j kj, j <> i0 ->
            <[i0 := k']> (threads c) !! j = Some kj -> kj = AtLock).
  { intros k' j kj Hj Hlk. rewrite list_lookup_insert_ne in Hlk by done. eauto. }
  assert (Hmine' : forall e0 d j e,
            (trace c ++ [(i0, e0)]) !! d = Some (j, e) -> j = i0).
  { intros e0 d j e Hd. apply snoc_lookup_inv in Hd as [Hd|[_ Hd]]; [eauto|].
    congruence. }
  destruct k as [| | |r| |r|r]; simpl in Hpc; try done.
  - (* the nil test *)
    destruct Hpc as [Hsc Hsz]. rewrite Hsc.
    eexists; split; [done|].
    eapply (Initialising p n w0 _ i0 AtNew s); simpl; eauto.
    + by rewrite length_insert.
    + by apply list_lookup_insert_eq.
  - (* NewRootScope *)
    destruct Hpc as [Hsc Hsz].
    eexists; split; [done|].
    eapply (Initialising p n w0 _ i0 (AtStore _) s); simpl; eauto.
    + by rewrite length_insert.
    + by apply list_lookup_insert_eq.
    + by rewrite Hsz.
  - (* the store *)
    destruct Hpc as (-> & Hsc & Hsz).
    eexists; split; [done|].
    eapply (Initialising p n w0 _ i0 AtReturn (set_scope _ s)); simpl; eauto.
    + by rewrite length_insert.
    + by apply list_lookup_insert_eq.
    + apply lookup_insert_eq.
    + repeat split; [done|]. exists (length (trace c)). apply snoc_lookup_new.
  - (* the read for the result *)
    destruct Hpc as (Hsc & Hsz & a & Ha). rewrite Hsc.
    eexists; split; [done|].
    eapply (Initialising p n w0 _ i0 (AtUnlock _) s); simpl; eauto.
    + by rewrite length_insert.
    + by apply list_lookup_insert_eq.
    + split; [done|]. split; [done|]. split; [done|]. split.
      * exists a. by apply lookup_app_l_Some.
      * exists (length (trace c)). apply snoc_lookup_new.
  - (* the deferred Unlock *)
    destruct Hpc as (-> & Hsc & Hsz & [a Ha] & [d0 Hd0]). rewrite Hheld.
    eexists; split; [done|].
    eapply (Ready p n w0 _ i0 (set_scopeMux {| locked := false |} s) a
              (length (trace c))); simpl.
    + by rewrite length_insert.
    + by apply list_lookup_insert_eq.
    + apply lookup_insert_eq.
    + done.
    + done.
    + by eapply lookup_lt_Some.
    + by apply lookup_app_l_Some.
    + apply snoc_lookup_new.
    + intros j kj Hj. destruct (decide (j = i0)) as [->|Hj0].
      * rewrite list_lookup_insert_eq in Hj by done. by injection Hj as <-.
      * by rewrite (Hkeep _ j kj Hj0 Hj).
    + unfold mutex_ok. simpl. intros j kj Hj.
      destruct (decide (j = i0)) as [->|Hj0].
      * rewrite list_lookup_insert_eq in Hj by done. by injection Hj as <-.
      * by rewrite (Hkeep _ j kj Hj0 Hj).
    + intros j kj Hj0 Hj Hk. by rewrite (Hkeep _ j kj Hj0 Hj) in Hk.
    + intros j d x Hj0 Hd. by apply Hmine' in Hd.
    + intros j kj Hj Hres. destruct (decide (j = i0)) as [->|Hj0].
      * exists d0. by apply lookup_app_l_Some.
      * by rewrite (Hkeep _ j kj Hj0 Hj) in Hres.
Qed.

Lemma ready_step i c i0 s a b :
  length (threads c) = n ->
  threads c !! i0 = Some (Done (Some (length (scopes w0)))) ->
  cores (heap c) !! p = Some s ->
  scope s = Some (length (scopes w0)) ->
  scopes (heap c) = scopes w0 ++ [nullScope] ->
  a < b ->
  trace c !! a = Some (i0, EvStore (Some (length (scopes w0)))) ->
  trace c !! b = Some (i0, EvUnlock) ->
  (forall j k, threads c !! j = Some k ->
     ready_pc (Some (length (scopes w0))) k) ->
  mutex_ok s (threads c) ->
  (forall j k, j <> i0 -> threads c !! j = Some k -> k <> AtLock ->
     exists l, b < l /\ trace c !! l = Some (j, EvLock)) ->
  (forall j d x, j <> i0 -> trace c !! d = Some (j, EvLoad x) ->
     x = Some (length (scopes w0)) /\
     exists l, b < l /\ l < d /\ trace c !! l = Some (j, EvLock)) ->
  (forall j k, threads c !! j = Some k -> has_result k = true ->
     exists d, trace c !! d = Some (j, EvLoad (Some (length (scopes w0))))) ->
  exists c', sched_step p i c = Some c' /\ phase p n w0 c'.
Proof.
  intros Hlen Hi0 Hcore Hscope Hscopes Hab Hstore Hunlock Hpcs Hmutex
    Hlocked Hloads Hread.
  assert (Hsame : phase p n w0 c) by (eapply Ready; eauto).
  unfold sched_step.
  destruct (threads c !! i) as [k|] eqn:Hi; [|eauto].
  rewrite (step_unfold p k (heap c) s Hcore).
  assert (Hlt : i < length (threads c)) by by eapply lookup_lt_Some.
  assert (Hb : b < length (trace c)) by by eapply lookup_lt_Some.
  pose proof (Hpcs i k Hi) as Hk.
  (* the goroutine that initialised has returned and stays so *)
  assert (Hi0' : forall k', is_done k = false ->
            <[i := k']> (threads c) !! i0
            = Some (Done (Some (length (scopes w0))))).
  { intros k' Hnd. rewrite list_lookup_insert_ne; [done|].
    intros ->. rewrite Hi0 in Hi. by injection Hi as <-. }
  (* a step that appends an event keeps what is known of the old ones *)
  assert (Hlocked' : forall k' e,
            (k' = AtLock -> False) ->
            (k <> AtLock \/ e = EvLock) ->
            forall j kj, j <> i0 -> <[i := k']> (threads c) !! j = Some kj ->
              kj <> AtLock ->
              exists l, b < l /\ (trace c ++ [(i, e)]) !! l = Some (j, EvLock)).
  { intros k' e Hk' Hke j kj Hj0 Hj Hkj.
    destruct (decide (j = i)) as [->|Hji].
    - destruct Hke as [Hke| ->].
      + destruct (Hlocked i k Hj0 Hi Hke) as (l & Hbl & Hl).
        exists l. split; [done|]. by apply lookup_app_l_Some.
      + exists (length (trace c)). split; [done|]. apply snoc_lookup_new.
    - rewrite list_lookup_insert_ne in Hj by done.
      destruct (Hlocked j kj Hj0 Hj Hkj) as (l & Hbl & Hl).
      exists l. split; [done|]. by apply lookup_app_l_Some. }
  assert (Hloads' : forall e,
            (forall x, e = EvLoad x ->
               x = Some (length (scopes w0)) /\ k <> AtLock) ->
            forall j d x, j <> i0 ->
              (trace c ++ [(i, e)]) !! d = Some (j, EvLoad x) ->
              x = Some (length (scopes w0)) /\
              exists l, b < l /\ l < d /\
                (trace c ++ [(i, e)]) !! l = Some (j, EvLock)).
  { intros e He j d x Hj0 Hd. apply snoc_lookup_inv in Hd as [Hd|[-> Hd]].
    - destruct (Hloads j d x Hj0 Hd) as (-> & l & Hbl & Hld & Hl).
      split; [done|]. exists l. repeat split; try done.
      by apply lookup_app_l_Some.
    - injection Hd as Hji Hxe. subst j e.
      destruct (He x eq_refl) as [-> Hke].
      split; [done|]. destruct (Hlocked i k Hj0 Hi Hke) as (l & Hbl & Hl).
      exists l. repeat split; try done.
      + by eapply lookup_lt_Some.
      + by apply lookup_app_l_Some. }
  assert (Hread' : forall k' e,
            (has_result k' = true ->
             has_result k = true \/ e = EvLoad (Some (length (scopes w0)))) ->
            forall j kj, <[i := k']> (threads c) !! j = Some kj ->
              has_result kj = true ->
              exists d, (trace c ++ [(i, e)]) !! d
                        = Some (j, EvLoad (Some (length (scopes w0))))).
  { intros k' e Hk' j kj Hj Hres. destruct (decide (j = i)) as [->|Hji].
    - rewrite list_lookup_insert_eq in Hj by done. injection Hj as <-.
      destruct (Hk' Hres) as [Hold| ->].
      + destruct (Hread i k Hi Hold) as [d Hd].
        exists d. by apply lookup_app_l_Some.
      + exists (length (trace c)). apply snoc_lookup_new.
    - rewrite list_lookup_insert_ne in Hj by done.
      destruct (Hread j kj Hj Hres) as [d Hd].
      exists d. by apply lookup_app_l_Some. }
  assert (Hpcs' : forall k', ready_pc (Some (length (scopes w0))) k' ->
            forall j kj, <[i := k']> (threads c) !! j = Some kj ->
              ready_pc (Some (length (scopes w0))) kj).
  { intros k' Hk' j kj Hj. destruct (decide (j = i)) as [->|Hji].
    - rewrite list_lookup_insert_eq in Hj by done. by injection Hj as <-.
    - rewrite list_lookup_insert_ne in Hj by done. eauto. }
  unfold mutex_ok in Hmutex.
  destruct k as [| | |r| |r|r]; simpl in Hk; try done.
  - (* Lock *)
    destruct (locked (scopeMux s)) eqn:Hl; [eauto|].
    eexists; split; [done|].
    eapply (Ready p n w0 _ i0 (set_scopeMux {| locked := true |} s) a b);
      simpl;
      [ by rewrite length_insert | by apply Hi0' | apply lookup_insert_eq
      | done | done | done | by apply lookup_app_l_Some
      | by apply lookup_app_l_Some | by apply Hpcs' | | | | ].
    + unfold mutex_ok. simpl. exists i, AtCheck.
      split; [by apply list_lookup_insert_eq|]. split; [done|].
      intros j kj Hj Hcs. destruct (decide (j = i)) as [|Hji]; [done|].
      rewrite list_lookup_insert_ne in Hj by done.
      rewrite (Hmutex j kj Hj) in Hcs. done.
    + apply Hlocked'; [done|by right].
    + apply Hloads'. done.
    + apply Hread'. done.
  - (* the nil test finds the slot filled *)
    rewrite Hscope. eexists; split; [done|].
    destruct (locked (scopeMux s)) eqn:Hl.
    2:{ by specialize (Hmutex i AtCheck Hi). }
    destruct Hmutex as (h & kh & Hh & Hcs & Huniq).
    assert (h = i) by (symmetry; by eapply Huniq). subst h.
    eapply (Ready p n w0 _ i0 s a b); simpl;
      [ by rewrite length_insert | by apply Hi0' | done
      | done | done | done | by apply lookup_app_l_Some
      | by apply lookup_app_l_Some | by apply Hpcs' | | | | ].
    + unfold mutex_ok. rewrite Hl. exists i, AtReturn.
      split; [by apply list_lookup_insert_eq|]. split; [done|].
      intros j kj Hj Hcsj. destruct (decide (j = i)) as [|Hji]; [done|].
      rewrite list_lookup_insert_ne in Hj by done. eauto.
    + apply Hlocked'; [done|by left].
    + apply Hloads'. intros x [= <-]. done.
    + apply Hread'. done.
  - (* the read for the result *)
    rewrite Hscope. eexists; split; [done|].
    destruct (locked (scopeMux s)) eqn:Hl.
    2:{ by specialize (Hmutex i AtReturn Hi). }
    destruct Hmutex as (h & kh & Hh & Hcs & Huniq).
    assert (h = i) by (symmetry; by eapply Huniq). subst h.
    eapply (Ready p n w0 _ i0 s a b); simpl;
      [ by rewrite length_insert | by apply Hi0' | done
      | done | done | done | by apply lookup_app_l_Some
      | by apply lookup_app_l_Some | by apply Hpcs' | | | | ].
    + unfold mutex_ok. rewrite Hl.
      exists i, (AtUnlock (Some (length (scopes w0)))).
      split; [by apply list_lookup_insert_eq|]. split; [done|].
      intros j kj Hj Hcsj. destruct (decide (j = i)) as [|Hji]; [done|].
      rewrite list_lookup_insert_ne in Hj by done. eauto.
    + apply Hlocked'; [done|by left].
    + apply Hloads'. intros x [= <-]. done.
    + apply Hread'. by right.
  - (* the deferred Unlock *)
    subst r.
    destruct (locked (scopeMux s)) eqn:Hl.
    2:{ by specialize (Hmutex i _ Hi). }
    destruct Hmutex as (h & kh & Hh & Hcs & Huniq).
    assert (h = i) by (symmetry; by eapply Huniq). subst h.
    eexists; split; [done|].
    eapply (Ready p n w0 _ i0 (set_scopeMux {| locked := false |} s) a b);
      simpl;
      [ by rewrite length_insert | by apply Hi0' | apply lookup_insert_eq
      | done | done | done | by apply lookup_app_l_Some
      | by apply lookup_app_l_Some | by apply Hpcs' | | | | ].
    + unfold mutex_ok. simpl. intros j kj Hj.
      destruct (decide (j = i)) as [->|Hji].
      * rewrite list_lookup_insert_eq in Hj by done. by injection Hj as <-.
      * rewrite list_lookup_insert_ne in Hj by done.
        destruct (inCS kj) eqn:Hcsj; [|done].
        by specialize (Huniq j kj Hj Hcsj).
    + apply Hlocked'; [done|by left].
    + apply Hloads'. done.
    + apply Hread'. by left.
  - (* returned *)
    eauto.
Qed.

(** Every pick of the scheduler keeps the run in one of the phases; in
    particular no step panics. *)
Lemma phase_step i c :
  phase p n w0 c ->
  exists c', sched_step p i c = Some c' /\ phase p n w0 c'.
Proof.
  intros [| |]; eauto using fresh_step, initialising_step, ready_step.
Qed.

Lemma phase_run sched : forall c,
  phase p n w0 c ->
  exists c', run p sched c = Some c' /\ phase p n w0 c'.
Proof.
  induction sched as [|i sched IH]; intros c Hc; simpl; [eauto|].
  destruct (phase_step i c Hc) as (c1 & -> & Hc1). eauto.
Qed.

Lemma run_app sched1 sched2 : forall c,
  run p (sched1 ++ sched2) c =
    match run p sched1 c with
    | Some c1 => run p sched2 c1
    | None => None
    end.
Proof.
  induction sched1 as [|i sched1 IH]; intros c; simpl; [done|].
  by destruct (sched_step p i c).
Qed.

(** *** Progress *)

Lemma todo_sum_insert (l : list pc) i k k' :
  l !! i = Some k -> todo k' < todo k ->
  todo_sum (<[i := k']> l) < todo_sum l.
Proof.
  revert i. induction l as [|x l IH]; intros [|i] Hi Hlt; try done.
  - injection Hi as ->. unfold todo_sum. simpl. lia.
  - specialize (IH i Hi Hlt). unfold todo_sum in *. simpl.
    apply Nat.add_lt_mono_l. exact IH.
Qed.

Lemma enabled_step i c k s :
  threads c !! i = Some k -> cores (heap c) !! p = Some s -> enabled s k ->
  exists c', sched_step p i c = Some c' /\
             todo_sum (threads c') < todo_sum (threads c).
Proof.
  intros Hi Hcore Hen. unfold sched_step.
  rewrite Hi, (step_unfold p k (heap c) s Hcore).
  destruct k; simpl in Hen; try done; rewrite ?Hen;
    (eexists; split; [done|]); simpl;
    eapply todo_sum_insert; try done; simpl; try lia.
  destruct (scope s); simpl; lia.
Qed.

Lemma unfinished_thread c :
  ~ finished c ->
  exists i k, threads c !! i = Some k /\ is_done k = false.
Proof.
  intros Hnf. apply not_Forall_Exists in Hnf; [|intros k; apply _].
  apply Exists_exists in Hnf as (k & Hk & Hnd).
  apply list_elem_of_lookup in Hk as [i Hi].
  exists i, k. split; [done|]. simpl in Hnd. by destruct (is_done k).
Qed.

Lemma phase_enabled c :
  phase p n w0 c -> ~ finished c ->
  exists i k s,
    threads c !! i = Some k /\ cores (heap c) !! p = Some s /\ enabled s k.
Proof.
  intros Hph Hnf. destruct (unfinished_thread c Hnf) as (i & k & Hi & Hnd).
  destruct Hph.
  - simpl in Hi. apply lookup_replicate in Hi as [-> Hi].
    exists i, AtLock, s0. split; [|done].
    simpl. by apply lookup_replicate_2.
  - exists i0, k0, s. repeat split; try done.
    destruct k0; simpl in Hpc |- *; done.
  - unfold mutex_ok in Hmutex. destruct (locked (scopeMux s)) eqn:Hl.
    + destruct Hmutex as (h & kh & Hh & Hcs & _).
      exists h, kh, s. repeat split; try done.
      destruct kh; simpl in Hcs |- *; done.
    + exists i, k, s. repeat split; try done.
      specialize (Hmutex i k Hi). destruct k; simpl in *; done.
Qed.

(** While a goroutine has not returned, some goroutine can take a step
    (no deadlock), and continuing so ends with all of them returned. *)
Lemma phase_completes c :
  phase p n w0 c ->
  exists more c', run p more c = Some c' /\ phase p n w0 c' /\ finished c'.
Proof.
  remember (todo_sum (threads c)) as m eqn:Hm.
  revert c Hm. induction m as [m IH] using lt_wf_ind. intros c -> Hph.
  destruct (decide (finished c)) as [Hf|Hnf].
  - exists [], c. done.
  - destruct (phase_enabled c Hph Hnf) as (i & k & s & Hi & Hcore & Hen).
    destruct (enabled_step i c k s Hi Hcore Hen) as (c1 & Hstep & Hlt).
    destruct (phase_step i c Hph) as (c1' & Hstep' & Hph1).
    assert (c1' = c1) by congruence. subst c1'.
    destruct (IH _ Hlt c1 eq_refl Hph1) as (more & c' & Hrun & Hph' & Hfin).
    exists (i :: more), c'. simpl. rewrite Hstep. done.
Qed.

(** *** The end of a run *)

Lemma phase_finished c :
  phase p n w0 c -> 0 < n -> finished c ->
  exists i0 a s,
    (forall i, i < n ->
       threads c !! i = Some (Done (Some (length (scopes w0))))) /\
    cores (heap c) !! p = Some s /\
    scope s = Some (length (scopes w0)) /\
    locked (scopeMux s) = false /\
    scopes (heap c) = scopes w0 ++ [nullScope] /\
    trace c !! a = Some (i0, EvStore (Some (length (scopes w0)))) /\
    (forall j, j < n ->
       exists d, trace c !! d = Some (j, EvLoad (Some (length (scopes w0))))) /\
    forall j d x, j <> i0 -> trace c !! d = Some (j, EvLoad x) ->
      x = Some (length (scopes w0)) /\ happens_before (trace c) a d.
Proof.
  intros Hph Hn Hfin. unfold finished in Hfin. destruct Hph.
  - simpl in Hfin. by pose proof (Forall_lookup_1 _ _ 0 AtLock Hfin
                                   (lookup_replicate_2 n AtLock 0 Hn)).
  - pose proof (Forall_lookup_1 _ _ _ _ Hfin Hi0) as Hd.
    destruct k; simpl in Hpc, Hd; done.
  - exists i0, a, s.
    split; [|split; [done|split; [done|split; [|split; [done|split;
      [done|split]]]]]].
    + intros i Hi. rewrite <- Hlen in Hi.
      apply lookup_lt_is_Some_2 in Hi as [k Hk]. rewrite Hk. f_equal.
      pose proof (Forall_lookup_1 _ _ _ _ Hfin Hk) as Hd.
      pose proof (Hpcs i k Hk) as Hr.
      destruct k; simpl in Hd, Hr; try done. by subst.
    + unfold mutex_ok in Hmutex. destruct (locked (scopeMux s)); [|done].
      destruct Hmutex as (h & kh & Hh & Hcs & _).
      pose proof (Forall_lookup_1 _ _ _ _ Hfin Hh) as Hd.
      destruct kh; simpl in Hcs, Hd; done.
    + intros j Hj. rewrite <- Hlen in Hj.
      apply lookup_lt_is_Some_2 in Hj as [k Hk].
      apply (Hread j k Hk).
      pose proof (Forall_lookup_1 _ _ _ _ Hfin Hk) as Hd.
      by destruct k.
    + intros j d x Hj Hd.
      destruct (Hloads j d x Hj Hd) as (-> & l & Hbl & Hld & Hl).
      split; [done|].
      eapply hb_trans; [eapply hb_trans|].
      * eapply hb_program; [exact Hab|exact Hstore|exact Hunlock].
      * eapply hb_mutex; [exact Hbl|exact Hunlock|exact Hl].
      * eapply hb_program; [exact Hld|exact Hl|exact Hd].
Qed.

End Concurrent.

(** X12. One goroutine, run to its end without interference, is the
    sequential [Metrics]: the same result and the same heap. *)
Lemma Metrics_single_goroutine w p s :
  cores w !! p = Some s -> locked (scopeMux s) = false ->
  exists c r w',
    run p [0; 0; 0; 0; 0; 0] (init 1 w) = Some c /\
    Metrics p w = Ret r w' /\
    threads c = [Done r] /\ heap c = w'.
Proof.
  intros Hp Hl.
  unfold run, sched_step, init, step. unfold_M. simpl.
  rewrite Hp, Hl. simpl.
  destruct (scope s) as [r|] eqn:Hs;
    repeat (progress (rewrite ?lookup_insert_eq, ?Hs, ?Hl; simpl));
    eauto 10.
Qed.

(** C3. [n] goroutines call [Metrics] at once on a host whose slot is
    empty.  Whatever the scheduler does, the run does not panic and can
    be continued until every call has returned; and when all have
    returned, all have returned the same reference, the one scope
    constructed is the null-reporting one, and the store of the
    goroutine that filled the slot happens before every read of the
    slot by another goroutine. *)
Theorem Metrics_concurrent_once p n w s sched :
  cores w !! p = Some s -> locked (scopeMux s) = false -> scope s = None ->
  exists c,
    run p sched (init n w) = Some c /\
    length (threads c) = n /\
    (exists more c',
       run p (sched ++ more) (init n w) = Some c' /\ finished c') /\
    (0 < n -> finished c ->
     exists i0 a s',
       (forall i, i < n ->
          threads c !! i = Some (Done (Some (length (scopes w))))) /\
       cores (heap c) !! p = Some s' /\
       scope s' = Some (length (scopes w)) /\
       locked (scopeMux s') = false /\
       scopes (heap c) = scopes w ++ [nullScope] /\
       trace c !! a = Some (i0, EvStore (Some (length (scopes w)))) /\
       (forall j, j < n ->
          exists d, trace c !! d = Some (j, EvLoad (Some (length (scopes w))))) /\
       forall j d x, j <> i0 -> trace c !! d = Some (j, EvLoad x) ->
         x = Some (length (scopes w)) /\ happens_before (trace c) a d).
Proof.
  intros Hp Hl Hs.
  destruct (phase_run p n w s Hp Hl Hs sched (init n w) (Fresh p n w))
    as (c & Hrun & Hph).
  exists c. split; [done|]. split; [|split].
  - destruct Hph; simpl; try done. apply length_replicate.
  - destruct (phase_completes p n w s Hp Hl Hs c Hph) as (more & c' & Hr & _ & Hf).
    exists more, c'. by rewrite run_app, Hrun.
  - intros Hn Hf. by eapply phase_finished.
Qed.

(** * Further properties of the code *)

(** ** Edge behaviour of the methods *)

(** X1. While the mutex is held, [Metrics] blocks, but the nine other
    methods do not take the mutex: they return the field they read and
    leave the heap alone. *)
Theorem held_mutex_blocks_only_Metrics w p s :
  cores w !! p = Some s -> locked (scopeMux s) = true ->
  Metrics p w = Blocked /\
  forall m, m <> sel_Metrics -> call m p w = Ret (field_of m s) w.
Proof.
  intros Hp Hl. split.
  - unfold_M. by rewrite Hp, Hl.
  - intros m Hm. by apply call_read.
Qed.

(** X2. A receiver that points to no struct makes every method panic,
    a sequence of calls panics at its first call, and a goroutine that
    is scheduled to call [Metrics] on it ends the program.  A container
    that holds the nil interface panics on every delegated call. *)
Theorem nil_receiver_panics w p :
  cores w !! p = None ->
  (forall m, call m p w = Panic) /\
  (forall m ms, calls (m :: ms) p w = Panic) /\
  (forall n i, i < n -> sched_step p i (init n w) = None) /\
  (forall c m, embedded c = None -> m ∈ ServiceHost_methods ->
     exists f, container_call c m = Some f /\ f w = Panic).
Proof.
  intros Hp. split; [|split; [|split]].
  - intros m. by apply call_nil.
  - intros m ms. simpl. unfold mbind, M_bind, bind. by rewrite call_nil.
  - intros n i Hi. unfold sched_step, init. simpl.
    rewrite lookup_replicate_2 by done.
    unfold step. unfold_M. by rewrite Hp.
  - intros c m Hc Hm. unfold container_call, host_call.
    rewrite decide_True by done. rewrite Hc. eauto.
Qed.

(** ** How calls compose *)

(** X3. Calling [Metrics] twice in a row is calling it once: the same
    outcome, and on return the same result and the same heap. *)
Theorem Metrics_twice w p :
  (Metrics p ;; Metrics p) w = Metrics p w.
Proof.
  unfold mbind at 1. unfold M_bind, bind.
  destruct (cores w !! p) as [s|] eqn:Hp.
  2:{ assert (Metrics p w = Panic) as -> by (unfold_M; by rewrite Hp). done. }
  destruct (locked (scopeMux s)) eqn:Hl.
  { assert (Metrics p w = Blocked) as -> by (unfold_M; by rewrite Hp, Hl).
    done. }
  destruct (Metrics_frame w p s Hp Hl) as (r & w' & HM & Hc & _).
  rewrite HM.
  assert (Hp' : cores w' !! p = Some (set_scope (Some r) s)).
  { rewrite Hc. apply lookup_insert_eq. }
  by rewrite (Metrics_spec w' p _ Hp' Hl).
Qed.

(** X4. A sequence of calls on a host constructs a scope exactly when
    the slot is empty and the sequence contains a [Metrics] call, and
    then exactly one, the null-reporting one; otherwise the heap is left
    as it was.  Scope objects that exist are never changed. *)
Theorem calls_construct_once ms : forall w p s,
  cores w !! p = Some s -> locked (scopeMux s) = false ->
  exists vs w',
    calls ms p w = Ret vs w' /\
    (scope s = None -> sel_Metrics ∈ ms ->
       scopes w' = scopes w ++ [nullScope]) /\
    (scope s <> None \/ sel_Metrics ∉ ms -> w' = w) /\
    (forall i x, scopes w !! i = Some x -> scopes w' !! i = Some x).
Proof.
  induction ms as [|m ms IH]; intros w p s Hp Hl.
  - exists [], w. split; [done|]. split; [|done].
    intros _ Hin. by apply elem_of_nil in Hin.
  - destruct (decide (m = sel_Metrics)) as [->|Hm].
    + destruct (Metrics_frame w p s Hp Hl) as (r & w1 & HM & Hc & _ & Hn & Hf).
      assert (Hp1 : cores w1 !! p = Some (set_scope (Some r) s)).
      { rewrite Hc. apply lookup_insert_eq. }
      destruct (calls_frame ms w1 p _ Hp1 Hl) as (vs & w2 & _ & Hcs & _ & _ & Hst).
      destruct (Hst r eq_refl) as [-> _].
      exists (VScope (Some r) :: vs), w1.
      assert (Hrun : calls (sel_Metrics :: ms) p w = Ret (VScope (Some r) :: vs) w1).
      { simpl. unfold mbind, M_bind, bind, fmap, M_fmap, bind, ret.
        by rewrite HM, Hcs. }
      split; [done|]. split; [|split].
      * intros Hs _. by destruct (Hn Hs).
      * intros [Hs|Hnin].
        -- destruct (scope s) as [r0|] eqn:Hs0; [|done].
           by destruct (Hf r0 eq_refl).
        -- exfalso. apply Hnin. apply elem_of_cons. by left.
      * intros i x Hi. destruct (scope s) as [r0|] eqn:Hs0.
        -- by destruct (Hf r0 eq_refl) as [_ ->].
        -- destruct (Hn eq_refl) as [_ ->]. by apply lookup_app_l_Some.
    + destruct (IH w p s Hp Hl) as (vs & w' & Hcs & Hnew & Hsame & Hkeep).
      exists (field_of m s :: vs), w'. split; [|split; [|split]].
      * simpl. unfold mbind, M_bind, bind.
        by rewrite (call_read w p s m Hp Hm), Hcs.
      * intros Hs Hin. apply Hnew; [done|].
        apply elem_of_cons in Hin as [Hin|Hin]; [|done]. by subst.
      * intros [Hs|Hnin]; apply Hsame; [by left|right].
        intros Hin. apply Hnin. apply elem_of_cons. by right.
      * done.
Qed.

(** X5. In any sequence of calls on a host, each call of a method other
    than [Metrics] returns the field the struct had at the start: the
    [Metrics] calls in between are invisible to the other methods,
    [State], [Items] and [Observer] included. *)
Theorem calls_read_start_fields ms : forall w p s,
  cores w !! p = Some s -> locked (scopeMux s) = false ->
  exists vs w',
    calls ms p w = Ret vs w' /\
    length vs = length ms /\
    forall i m, ms !! i = Some m -> m <> sel_Metrics ->
      vs !! i = Some (field_of m s).
Proof.
  induction ms as [|m ms IH]; intros w p s Hp Hl.
  - exists [], w. by repeat split.
  - destruct (call_frame w p s m Hp Hl) as (v & w1 & s1 & Hc & Hp1 & Hs1 & Hst).
    assert (Hl1 : locked (scopeMux s1) = false).
    { destruct Hs1 as (_&_&_&_&->&_). done. }
    destruct (IH w1 p s1 Hp1 Hl1) as (vs & w2 & Hcs & Hlen & Hvs).
    exists (v :: vs), w2. split; [|split].
    + simpl. unfold mbind, M_bind, bind. by rewrite Hc, Hcs.
    + simpl. by rewrite Hlen.
    + intros [|i] m' Hi Hm'; simpl in Hi |- *.
      * injection Hi as ->. f_equal.
        rewrite (call_read w p s m' Hp Hm') in Hc. by injection Hc as <- _.
      * rewrite (Hvs i m' Hi Hm'). f_equal.
        by apply same_but_scope_field.
Qed.

(** X6. Two hosts with empty slots get scopes of their own: [Metrics]
    on one and then on the other returns two different references, both
    new and both to a null-reporting scope. *)
Theorem hosts_get_own_scopes w p q sp sq :
  p <> q ->
  cores w !! p = Some sp -> locked (scopeMux sp) = false -> scope sp = None ->
  cores w !! q = Some sq -> locked (scopeMux sq) = false -> scope sq = None ->
  exists rp rq w',
    (a ← Metrics p; b ← Metrics q; mret (a, b)) w
      = Ret (Some rp, Some rq) w' /\
    rp <> rq /\
    scopes w !! rp = None /\ scopes w !! rq = None /\
    scopes w' !! rp = Some nullScope /\ scopes w' !! rq = Some nullScope.
Proof.
  intros Hpq Hp Hlp Hsp Hq Hlq Hsq.
  unfold mbind, M_bind, bind, mret, M_ret, ret.
  rewrite (Metrics_spec w p sp Hp Hlp), Hsp.
  set (w1 := {| cores := _; scopes := scopes w ++ [nullScope]; bags := _ |}).
  assert (Hq1 : cores w1 !! q = Some sq).
  { unfold w1. simpl. by rewrite lookup_insert_ne. }
  rewrite (Metrics_spec w1 q sq Hq1 Hlq), Hsq. simpl.
  eexists _, _, _. split; [done|]. rewrite length_app. simpl.
  split; [lia|]. split; [|split; [|split]].
  - by apply lookup_ge_None_2.
  - apply lookup_ge_None_2. lia.
  - rewrite lookup_app_l by (rewrite length_app; simpl; lia).
    by apply list_lookup_middle.
  - apply list_lookup_middle. by rewrite length_app.
Qed.

(** X7. A container holds a reference to the host, not a copy: the
    scope that a [Metrics] call through the container puts into the slot
    is the one that a later call on the host itself, or through any
    other container of that host, returns. *)
Theorem container_shares_host w p s c :
  cores w !! p = Some s -> locked (scopeMux s) = false ->
  exists f r w',
    container_call (SetContainer (Some p) c) sel_Metrics = Some f /\
    f w = Ret (VScope (Some r)) w' /\
    Metrics p w' = Ret (Some r) w' /\
    forall c2, exists g,
      container_call (SetContainer (Some p) c2) sel_Metrics = Some g /\
      g w' = Ret (VScope (Some r)) w'.
Proof.
  intros Hp Hl.
  destruct (Metrics_frame w p s Hp Hl) as (r & w' & HM & Hc & _).
  assert (Hp' : cores w' !! p = Some (set_scope (Some r) s)).
  { rewrite Hc. apply lookup_insert_eq. }
  assert (HM' : Metrics p w' = Ret (Some r) w').
  { by rewrite (Metrics_spec w' p _ Hp' Hl). }
  assert (Hin : sel_Metrics ∈ ServiceHost_methods).
  { unfold ServiceHost_methods. rewrite !elem_of_cons. auto 10. }
  exists (call sel_Metrics p), r, w'. split; [|split; [|split]].
  - unfold container_call, SetContainer, host_call.
    by rewrite decide_True.
  - unfold call, fmap, M_fmap, bind, ret. by rewrite HM.
  - done.
  - intros c2. exists (call sel_Metrics p). split.
    + unfold container_call, SetContainer, host_call.
      by rewrite decide_True.
    + unfold call, fmap, M_fmap, bind, ret. by rewrite HM'.
Qed.

(** ** Interleaved callers, from any heap *)

Section Interleavings.
Variable p : loc.

Implicit Types (c : config) (k : pc) (l : list pc).

(** A pick of the scheduler either changes nothing or is one step as
    [transition] describes it. *)
Lemma sched_step_cases i c c' s :
  cores (heap c) !! p = Some s -> sched_step p i c = Some c' ->
  c' = c \/
  exists k k' e s',
    threads c !! i = Some k /\
    threads c' = <[i := k']> (threads c) /\
    trace c' = trace c ++ [(i, e)] /\
    cores (heap c') = <[p := s']> (cores (heap c)) /\
    bags (heap c') = bags (heap c) /\
    transition k s (scopes (heap c)) k' e s' (scopes (heap c')).
Proof.
  intros Hcore. unfold sched_step.
  destruct (threads c !! i) as [k|] eqn:Hi; [|intros [= <-]; by left].
  rewrite (step_unfold p k (heap c) s Hcore).
  assert (Hid : cores (heap c) = <[p := s]> (cores (heap c))).
  { symmetry. by apply insert_id. }
  destruct k as [| | |r| |r|r].
  - destruct (locked (scopeMux s)) eqn:Hl; intros [= <-]; [by left|right].
    exists AtLock, AtCheck, EvLock, (set_scopeMux {| locked := true |} s).
    simpl. by repeat split.
  - intros [= <-]. right.
    eexists AtCheck, _, _, s. simpl. by repeat split.
  - intros [= <-]. right.
    eexists AtNew, _, _, s. simpl. by repeat split.
  - intros [= <-]. right.
    eexists (AtStore r), _, _, (set_scope r s). simpl. by repeat split.
  - intros [= <-]. right.
    eexists AtReturn, _, _, s. simpl. by repeat split.
  - destruct (locked (scopeMux s)) eqn:Hl; intros [= <-]. right.
    eexists (AtUnlock r), _, _, (set_scopeMux {| locked := false |} s).
    simpl. by repeat split.
  - intros [= <-]. by left.
Qed.

Lemma transition_todo k s S k' e s' S' :
  transition k s S k' e s' S' -> todo k' < todo k.
Proof.
  destruct k; simpl; try done; intros Ht;
    repeat match goal with Hx : _ /\ _ |- _ => destruct Hx as [? ?] end;
    subst; simpl; try lia.
  destruct (scope s); simpl; lia.
Qed.

Lemma transition_frame k s S k' e s' S' :
  transition k s S k' e s' S' ->
  same_but_scope_mutex s s' /\
  (forall i x, S !! i = Some x -> S' !! i = Some x).
Proof.
  destruct k; simpl; try done; intros Ht;
    repeat match goal with Hx : _ /\ _ |- _ => destruct Hx as [? ?] end;
    subst; split; try done; try (by repeat split).
  intros i x Hi. by apply lookup_app_l_Some.
Qed.

Lemma same_but_scope_mutex_trans s1 s2 s3 :
  same_but_scope_mutex s1 s2 -> same_but_scope_mutex s2 s3 ->
  same_but_scope_mutex s1 s3.
Proof. unfold same_but_scope_mutex. intuition congruence. Qed.

Lemma same_but_scope_mutex_field m s s' :
  same_but_scope_mutex s s' -> m <> sel_Metrics ->
  field_of m s' = field_of m s.
Proof.
  unfold same_but_scope_mutex. intros (?&?&?&?&?&?&?&?) Hm.
  destruct m; simpl; congruence.
Qed.

(** *** The mutex *)

Lemma holder_insert l i k k' :
  l !! i = Some k -> inCS k' = true ->
  (forall j kj, l !! j = Some kj -> inCS kj = true -> j = i) ->
  exists h kh, <[i := k']> l !! h = Some kh /\ inCS kh = true /\
    forall j kj, <[i := k']> l !! j = Some kj -> inCS kj = true -> j = h.
Proof.
  intros Hi Hk' Huniq. exists i, k'.
  split; [apply list_lookup_insert_eq; by eapply lookup_lt_Some|].
  split; [done|]. intros j kj Hj Hcs.
  destruct (decide (j = i)) as [|Hji]; [done|].
  rewrite list_lookup_insert_ne in Hj by done. eauto.
Qed.

Lemma nobody_insert l i k k' :
  l !! i = Some k -> inCS k' = false ->
  (forall j kj, l !! j = Some kj -> inCS kj = true -> j = i) ->
  forall j kj, <[i := k']> l !! j = Some kj -> inCS kj = false.
Proof.
  intros Hi Hk' Huniq j kj Hj.
  destruct (decide (j = i)) as [->|Hji].
  - rewrite list_lookup_insert_eq in Hj by by eapply lookup_lt_Some.
    by injection Hj as <-.
  - rewrite list_lookup_insert_ne in Hj by done.
    destruct (inCS kj) eqn:Hcs; [|done]. by specialize (Huniq j kj Hj Hcs).
Qed.

(** With the mutex in agreement with the positions, no pick panics, and
    the agreement is kept. *)
Lemma mutex_step i c :
  mutex_inv p c -> exists c', sched_step p i c = Some c' /\ mutex_inv p c'.
Proof.
  intros (s & Hcore & Hmx).
  assert (Hsame : mutex_inv p c) by (exists s; done).
  unfold sched_step.
  destruct (threads c !! i) as [k|] eqn:Hi; [|eauto].
  rewrite (step_unfold p k (heap c) s Hcore).
  unfold mutex_ok in Hmx.
  destruct (locked (scopeMux s)) eqn:Hl.
  - (* held *)
    destruct Hmx as (h & kh & Hh & Hcs & Huniq).
    destruct (inCS k) eqn:Hk.
    2:{ destruct k; simpl in Hk; try done; eauto. }
    assert (h = i) by (symmetry; by eapply Huniq). subst h.
    assert (Hin : forall k' s', locked (scopeMux s') = true ->
              inCS k' = true -> mutex_ok s' (<[i := k']> (threads c))).
    { intros k' s' Hl' Hk'. unfold mutex_ok. rewrite Hl'.
      by eapply holder_insert. }
    destruct k as [| | |r| |r|r]; simpl in Hk; try done.
    + eexists; split; [done|]. exists s. simpl. split; [done|].
      apply Hin; [done|]. by destruct (scope s).
    + eexists; split; [done|]. exists s. simpl. split; [done|]. by apply Hin.
    + eexists; split; [done|]. exists (set_scope r s). simpl.
      split; [apply lookup_insert_eq|]. by apply Hin.
    + eexists; split; [done|]. exists s. simpl. split; [done|]. by apply Hin.
    + eexists; split; [done|].
      exists (set_scopeMux {| locked := false |} s). simpl.
      split; [apply lookup_insert_eq|]. unfold mutex_ok. simpl.
      by eapply nobody_insert.
  - (* free *)
    pose proof (Hmx i k Hi) as Hk.
    destruct k as [| | |r| |r|r]; simpl in Hk; try done; [|eauto].
    eexists; split; [done|].
    exists (set_scopeMux {| locked := true |} s). simpl.
    split; [apply lookup_insert_eq|]. unfold mutex_ok. simpl.
    eapply holder_insert; [done|done|].
    intros j kj Hj Hcs. rewrite (Hmx j kj Hj) in Hcs. done.
Qed.

Lemma mutex_enabled c :
  mutex_inv p c -> ~ finished c ->
  exists i k s,
    threads c !! i = Some k /\ cores (heap c) !! p = Some s /\ enabled s k.
Proof.
  intros (s & Hcore & Hmx) Hnf.
  destruct (unfinished_thread c Hnf) as (i & k & Hi & Hnd).
  unfold mutex_ok in Hmx. destruct (locked (scopeMux s)) eqn:Hl.
  - destruct Hmx as (h & kh & Hh & Hcs & _).
    exists h, kh, s. repeat split; try done.
    destruct kh; simpl in Hcs |- *; done.
  - exists i, k, s. repeat split; try done.
    specialize (Hmx i k Hi). destruct k; simpl in *; done.
Qed.

(** *** Runs under an invariant that every pick keeps *)

Section Invariant.
Variable I : config -> Prop.
Hypothesis I_mutex : forall c, I c -> mutex_inv p c.
Hypothesis I_step :
  forall i c, I c -> exists c', sched_step p i c = Some c' /\ I c'.

Lemma run_with sched : forall c,
  I c -> exists c', run p sched c = Some c' /\ I c'.
Proof.
  induction sched as [|i sched IH]; intros c Hc; simpl; [eauto|].
  destruct (I_step i c Hc) as (c1 & -> & Hc1). eauto.
Qed.

Lemma completes_with c :
  I c -> exists more c', run p more c = Some c' /\ I c' /\ finished c'.
Proof.
  remember (todo_sum (threads c)) as m eqn:Hm.
  revert c Hm. induction m as [m IH] using lt_wf_ind. intros c -> Hc.
  destruct (decide (finished c)) as [Hf|Hnf].
  - exists [], c. done.
  - destruct (mutex_enabled c (I_mutex c Hc) Hnf)
      as (i & k & s & Hi & Hcore & Hen).
    destruct (enabled_step p i c k s Hi Hcore Hen) as (c1 & Hstep & Hlt).
    destruct (I_step i c Hc) as (c1' & Hstep' & Hc1).
    assert (c1' = c1) by congruence. subst c1'.
    destruct (IH _ Hlt c1 eq_refl Hc1) as (more & c' & Hrun & Hc' & Hfin).
    exists (i :: more), c'. simpl. rewrite Hstep. done.
Qed.

End Invariant.

Lemma init_mutex_inv n w s :
  cores w !! p = Some s -> locked (scopeMux s) = false ->
  mutex_inv p (init n w).
Proof.
  intros Hp Hl. exists s. split; [done|]. unfold mutex_ok. rewrite Hl.
  simpl. intros j kj Hj. by apply lookup_replicate in Hj as [-> _].
Qed.

Lemma run_length sched : forall c c',
  run p sched c = Some c' -> length (threads c') = length (threads c).
Proof.
  induction sched as [|i sched IH]; intros c c'; simpl; [by intros [= <-]|].
  destruct (sched_step p i c) as [c1|] eqn:Hstep; [|done].
  intros Hrun. rewrite (IH c1 c' Hrun).
  unfold sched_step in Hstep.
  destruct (threads c !! i) as [k|]; [|by injection Hstep as <-].
  destruct (step p k (heap c)) as [[k' e] w'| |];
    [|done|by injection Hstep as <-].
  injection Hstep as <-. simpl. apply length_insert.
Qed.

(** *** A slot that setup has filled *)

Lemma configured_step r S0 i c :
  configured_inv p r S0 c ->
  exists c', sched_step p i c = Some c' /\ configured_inv p r S0 c'.
Proof.
  intros (s & Hcore & Hmx & Hsc & HS & Hpcs).
  destruct (mutex_step i c) as (c' & Hstep & s' & Hcore' & Hmx').
  { exists s. done. }
  exists c'. split; [done|].
  destruct (sched_step_cases i c c' s Hcore Hstep)
    as [->|(k & k' & e & s1 & Hi & Hth & Htr & Hco & Hb & Htrans)].
  { exists s. done. }
  assert (s1 = s').
  { rewrite Hco, lookup_insert_eq in Hcore'. congruence. }
  subst s1. exists s'. split; [done|]. split; [done|].
  pose proof (Hpcs i k Hi) as Hk.
  assert (Hnext : scope s' = Some r /\ scopes (heap c') = S0 /\
                  ready_pc (Some r) k').
  { destruct k as [| | |r1| |r1|r1]; simpl in Hk, Htrans; try done.
    - destruct Htrans as (_ & -> & _ & -> & ->). done.
    - destruct Htrans as (-> & _ & -> & ->). by rewrite Hsc.
    - destruct Htrans as (-> & _ & -> & ->). by rewrite Hsc.
    - destruct Htrans as (_ & -> & _ & -> & ->). done. }
  destruct Hnext as (Hsc' & HS' & Hk'). split; [done|]. split; [done|].
  intros j kj Hj. rewrite Hth in Hj.
  destruct (decide (j = i)) as [->|Hji].
  - rewrite list_lookup_insert_eq in Hj by by eapply lookup_lt_Some.
    by injection Hj as <-.
  - rewrite list_lookup_insert_ne in Hj by done. eauto.
Qed.

(** *** What a run leaves alone *)

Lemma sched_step_frame i c c' s :
  cores (heap c) !! p = Some s -> sched_step p i c = Some c' ->
  exists s',
    cores (heap c') !! p = Some s' /\ same_but_scope_mutex s s' /\
    (forall q, q <> p -> cores (heap c') !! q = cores (heap c) !! q) /\
    bags (heap c') = bags (heap c) /\
    (forall j x, scopes (heap c) !! j = Some x ->
       scopes (heap c') !! j = Some x) /\
    length (trace c') + todo_sum (threads c')
      <= length (trace c) + todo_sum (threads c).
Proof.
  intros Hcore Hstep.
  destruct (sched_step_cases i c c' s Hcore Hstep)
    as [->|(k & k' & e & s' & Hi & Hth & Htr & Hco & Hb & Htrans)].
  { exists s. by repeat split. }
  destruct (transition_frame _ _ _ _ _ _ _ Htrans) as [Hs Hkeep].
  pose proof (transition_todo _ _ _ _ _ _ _ Htrans) as Hlt.
  exists s'. split; [rewrite Hco; apply lookup_insert_eq|].
  split; [done|]. split; [|split; [done|split; [done|]]].
  - intros q Hq. rewrite Hco. by apply lookup_insert_ne.
  - rewrite Htr, Hth, length_app. simpl.
    pose proof (todo_sum_insert (threads c) i k k' Hi Hlt). lia.
Qed.

Lemma run_frame sched : forall c c' s,
  cores (heap c) !! p = Some s -> run p sched c = Some c' ->
  exists s',
    cores (heap c') !! p = Some s' /\ same_but_scope_mutex s s' /\
    (forall q, q <> p -> cores (heap c') !! q = cores (heap c) !! q) /\
    bags (heap c') = bags (heap c) /\
    (forall j x, scopes (heap c) !! j = Some x ->
       scopes (heap c') !! j = Some x) /\
    length (trace c') + todo_sum (threads c')
      <= length (trace c) + todo_sum (threads c).
Proof.
  induction sched as [|i sched IH]; intros c c' s Hcore; simpl.
  { intros [= <-]. exists s. by repeat split. }
  destruct (sched_step p i c) as [c1|] eqn:Hstep; [|done]. intros Hrun.
  destruct (sched_step_frame i c c1 s Hcore Hstep)
    as (s1 & Hcore1 & Hs1 & Hq1 & Hb1 & Hk1 & Hm1).
  destruct (IH c1 c' s1 Hcore1 Hrun) as (s' & Hcore' & Hs' & Hq' & Hb' & Hk' & Hm').
  exists s'. split; [done|].
  split; [by eapply same_but_scope_mutex_trans|].
  split; [|split; [|split]].
  - intros q Hq. by rewrite Hq', Hq1.
  - by rewrite Hb', Hb1.
  - eauto.
  - lia.
Qed.

End Interleavings.

(** X8. Goroutines that call [Metrics] on a host whose mutex is free,
    whatever the slot holds and whatever the scheduler does: the run does
    not panic, at most one goroutine at a time is between [Lock] and
    [Unlock], the mutex is held exactly when one is, and the run can be
    continued until every call has returned. *)
Theorem Metrics_mutual_exclusion p n w s sched :
  cores w !! p = Some s -> locked (scopeMux s) = false ->
  exists c s',
    run p sched (init n w) = Some c /\
    cores (heap c) !! p = Some s' /\
    (forall i j ki kj,
       threads c !! i = Some ki -> inCS ki = true ->
       threads c !! j = Some kj -> inCS kj = true -> i = j) /\
    (locked (scopeMux s') = true <->
       exists i ki, threads c !! i = Some ki /\ inCS ki = true) /\
    exists more c',
      run p (sched ++ more) (init n w) = Some c' /\ finished c'.
Proof.
  intros Hp Hl.
  pose proof (init_mutex_inv p n w s Hp Hl) as Hinit.
  destruct (run_with p (mutex_inv p) (mutex_step p) sched _ Hinit)
    as (c & Hrun & Hc).
  destruct (completes_with p (mutex_inv p) (fun _ Hx => Hx) (mutex_step p) c Hc)
    as (more & c' & Hmore & _ & Hfin).
  destruct Hc as (s' & Hcore & Hmx).
  exists c, s'. split; [done|]. split; [done|].
  unfold mutex_ok in Hmx. destruct (locked (scopeMux s')) eqn:Hl'.
  - destruct Hmx as (h & kh & Hh & Hcs & Huniq).
    split; [|split].
    + intros i j ki kj Hi Hki Hj Hkj.
      rewrite (Huniq i ki Hi Hki), (Huniq j kj Hj Hkj). done.
    + split; [eauto|done].
    + exists more, c'. by rewrite run_app, Hrun.
  - split; [|split].
    + intros i j ki kj Hi Hki. rewrite (Hmx i ki Hi) in Hki. done.
    + split; [done|]. intros (i & ki & Hi & Hki).
      rewrite (Hmx i ki Hi) in Hki. done.
    + exists more, c'. by rewrite run_app, Hrun.
Qed.

(** X9. Goroutines that call [Metrics] on a host whose slot setup has
    filled with [r]: whatever the scheduler does, no scope is
    constructed, a call that has returned has returned [r], and the run
    can be continued until every call has returned [r], with the scope
    heap still as it was. *)
Theorem Metrics_concurrent_configured p n w s r sched :
  cores w !! p = Some s -> locked (scopeMux s) = false ->
  scope s = Some r ->
  exists c,
    run p sched (init n w) = Some c /\
    scopes (heap c) = scopes w /\
    (forall i x, threads c !! i = Some (Done x) -> x = Some r) /\
    exists more c',
      run p (sched ++ more) (init n w) = Some c' /\
      scopes (heap c') = scopes w /\
      forall i, i < n -> threads c' !! i = Some (Done (Some r)).
Proof.
  intros Hp Hl Hs.
  assert (Hinit : configured_inv p r (scopes w) (init n w)).
  { exists s. split; [done|]. split; [|split; [done|split; [done|]]].
    - unfold mutex_ok. rewrite Hl. simpl. intros j kj Hj.
      by apply lookup_replicate in Hj as [-> _].
    - simpl. intros j kj Hj. by apply lookup_replicate in Hj as [-> _]. }
  assert (Hmx : forall c, configured_inv p r (scopes w) c -> mutex_inv p c).
  { intros c (s' & Hcore & Hm & _). exists s'. done. }
  destruct (run_with p _ (configured_step p r (scopes w)) sched _ Hinit)
    as (c & Hrun & Hc).
  destruct (completes_with p _ Hmx (configured_step p r (scopes w)) c Hc)
    as (more & c' & Hmore & Hc' & Hfin).
  exists c. split; [done|].
  destruct Hc as (s1 & _ & _ & _ & HS1 & Hpcs1). split; [done|]. split.
  { intros i x Hi. exact (Hpcs1 i _ Hi). }
  exists more, c'.
  assert (Hrun' : run p (sched ++ more) (init n w) = Some c').
  { by rewrite run_app, Hrun. }
  split; [done|].
  destruct Hc' as (s2 & _ & _ & _ & HS2 & Hpcs2). split; [done|].
  intros i Hi.
  pose proof (run_length p _ _ _ Hrun') as Hlen. simpl in Hlen.
  rewrite length_replicate in Hlen. rewrite <- Hlen in Hi.
  apply lookup_lt_is_Some_2 in Hi as [k Hk]. rewrite Hk. f_equal.
  pose proof (Forall_lookup_1 _ _ _ _ Hfin Hk) as Hd.
  pose proof (Hpcs2 i k Hk) as Hr.
  destruct k; simpl in Hd, Hr; try done. by subst.
Qed.

(** X10. Along any interleaved run of [Metrics] callers, from any
    positions: the nine other methods keep returning the fields the
    struct had at the start, the structs of other hosts and the item
    bags are untouched, and scope objects that exist are never
    changed. *)
Theorem concurrent_run_frame p sched c c' s :
  cores (heap c) !! p = Some s -> run p sched c = Some c' ->
  (forall m, m <> sel_Metrics ->
     call m p (heap c') = Ret (field_of m s) (heap c')) /\
  (forall q, q <> p -> cores (heap c') !! q = cores (heap c) !! q) /\
  bags (heap c') = bags (heap c) /\
  (forall j x, scopes (heap c) !! j = Some x ->
     scopes (heap c') !! j = Some x).
Proof.
  intros Hcore Hrun.
  destruct (run_frame p sched c c' s Hcore Hrun)
    as (s' & Hcore' & Hs' & Hq & Hb & Hk & _).
  split; [|done].
  intros m Hm. rewrite (call_read _ p s' m Hcore' Hm). f_equal.
  by apply same_but_scope_mutex_field.
Qed.

(** X11. [n] concurrent calls of [Metrics] take at most [6 * n] steps
    in all, whatever the scheduler does: a pick that finds the mutex
    held is not a step, and every step brings its goroutine closer to
    its return. *)
Theorem Metrics_step_bound p n w s sched c :
  cores w !! p = Some s -> run p sched (init n w) = Some c ->
  length (trace c) + todo_sum (threads c) <= 6 * n /\
  length (trace c) <= 6 * n.
Proof.
  intros Hp Hrun.
  destruct (run_frame p sched (init n w) c s Hp Hrun)
    as (_ & _ & _ & _ & _ & _ & Hm).
  simpl in Hm. unfold todo_sum at 2 in Hm.
  rewrite fmap_replicate, sum_list_replicate in Hm. simpl in Hm. lia.
Qed.

(** X13. At every point of an interleaved run on a host whose slot was
    empty: at most the one null-reporting scope has been constructed,
    the slot is either still empty or refers to that scope, which then
    exists, and a call that has already returned has returned that
    reference. *)
Theorem Metrics_concurrent_at_every_point p n w s sched :
  cores w !! p = Some s -> locked (scopeMux s) = false -> scope s = None ->
  exists c s',
    run p sched (init n w) = Some c /\
    cores (heap c) !! p = Some s' /\
    (scopes (heap c) = scopes w \/
     scopes (heap c) = scopes w ++ [nullScope]) /\
    (scope s' = None \/
     (scope s' = Some (length (scopes w)) /\
      scopes (heap c) !! length (scopes w) = Some nullScope)) /\
    (forall i x, threads c !! i = Some (Done x) ->
       x = Some (length (scopes w)) /\ scope s' = Some (length (scopes w))).
Proof.
  intros Hp Hl Hs.
  destruct (phase_run p n w s Hp Hl Hs sched (init n w) (Fresh p n w))
    as (c & Hrun & Hph).
  exists c. destruct Hph.
  - exists s. split; [done|]. split; [done|]. split; [by left|].
    split; [by left|]. simpl. intros i x Hi.
    by apply lookup_replicate in Hi as [? _].
  - exists s0. split; [done|]. split; [done|].
    assert (Hnew : forall S, S = scopes w ++ [nullScope] ->
              S !! length (scopes w) = Some nullScope).
    { intros S ->. by apply list_lookup_middle. }
    assert (Hdone : forall i x, threads c !! i = Some (Done x) -> False).
    { intros i x Hi. destruct (decide (i = i0)) as [->|Hne].
      - rewrite Hi0 in Hi. injection Hi as ->. done.
      - by pose proof (Hothers i _ Hne Hi). }
    destruct k; simpl in Hpc; try done.
    + destruct Hpc as [Hsc HS]. split; [by left|]. split; [by left|].
      intros i x Hi. by destruct (Hdone i x Hi).
    + destruct Hpc as [Hsc HS]. split; [by left|]. split; [by left|].
      intros i x Hi. by destruct (Hdone i x Hi).
    + destruct Hpc as (_ & Hsc & HS). split; [by right|]. split; [by left|].
      intros i x Hi. by destruct (Hdone i x Hi).
    + destruct Hpc as (Hsc & HS & _). split; [by right|].
      split; [right; split; [done|by apply Hnew]|].
      intros i x Hi. by destruct (Hdone i x Hi).
    + destruct Hpc as (_ & Hsc & HS & _). split; [by right|].
      split; [right; split; [done|by apply Hnew]|].
      intros i x Hi. by destruct (Hdone i x Hi).
  - exists s0. split; [done|]. split; [done|]. split; [by right|].
    split.
    + right. split; [done|]. rewrite Hscopes. by apply list_lookup_middle.
    + intros i x Hi. split; [|done]. exact (Hpcs i _ Hi).
Qed.

End HostFacts.

(** * The scenarios, run *)

Example checkout_is_host : HostContext checkoutWorld checkoutAddr.
Proof. exists checkoutCore. split; reflexivity. Qed.

(** Scenario B: no backend configured; the first call constructs the
    null-reporting scope, the second returns the same reference. *)
Example scenario_B :
  result_of
    ((r1 ← Metrics checkoutAddr; r2 ← Metrics checkoutAddr; mret (r1, r2))
       checkoutWorld)
  = Returns (Some 0, Some 0).
Proof. vm_compute. reflexivity. Qed.

(** A host that setup has configured keeps its backend scope. *)
Example configured_keeps_backend :
  Metrics checkoutAddr configuredWorld = Ret (Some 0) configuredWorld
  /\ scopes configuredWorld !! 0 = Some backendScope.
Proof. split; reflexivity. Qed.

(** Scenario C in small: three goroutines under an interleaving in which
    goroutine 1 takes the mutex first. *)
Example scenario_C :
  (fun c => (threads c, scopes (heap c))) <$>
    run checkoutAddr [1; 0; 1; 2; 1; 1; 0; 1; 1; 2; 2; 0; 2; 0; 2; 0; 0; 2; 0; 0]
      (init 3 checkoutWorld)
  = Some ([Done (Some 0); Done (Some 0); Done (Some 0)], [nullScope]).
Proof. vm_compute. reflexivity. Qed.

(** A goroutine that finds the mutex held waits. *)
Example blocked_waits :
  threads <$> run checkoutAddr [1; 0; 0; 2] (init 3 checkoutWorld)
  = Some [AtLock; AtCheck; AtLock].
Proof. vm_compute. reflexivity. Qed.

(** Calling [Metrics] with the mutex held and nobody to release it
    blocks. *)
Example held_mutex_blocks :
  result_of
    ((Lock checkoutAddr ;; Metrics checkoutAddr) checkoutWorld) = Blocks.
Proof. vm_compute. reflexivity. Qed.

(** Before [SetContainer], a delegated call dereferences nil. *)
Example empty_container_panics :
  (fun f => result_of (f checkoutWorld)) <$>
    container_call (H := demoCollaborators) emptyContainer sel_Name
  = Some Panics.
Proof. vm_compute. reflexivity. Qed.

(** * The theorems at the checkout host *)

Lemma Metrics_returns_scope_witness :
  cores checkoutWorld !! checkoutAddr = Some checkoutCore /\
  locked (scopeMux checkoutCore) = false /\
  exists r w',
    Metrics checkoutAddr checkoutWorld = Ret (Some r) w' /\
    cores w' !! checkoutAddr = Some (set_scope (Some r) checkoutCore) /\
    r = 0 /\ scopes w' = [nullScope].
Proof.
  split; [reflexivity|]. split; [reflexivity|].
  destruct (Metrics_returns_scope checkoutWorld checkoutAddr checkoutCore
              eq_refl eq_refl) as (r & w' & HM & Hc & Hr & Hs & _).
  exists r, w'. repeat split; assumption.
Defined.

Lemma Metrics_scope_stable_witness :
  cores configuredWorld !! checkoutAddr
    = Some (set_scope (Some 0) checkoutCore) /\
  exists vs,
    calls [sel_Metrics; sel_Name; sel_Metrics] checkoutAddr configuredWorld
      = Ret vs configuredWorld /\
    forall x, VScope x ∈ vs -> x = Some 0.
Proof.
  split; [reflexivity|].
  apply (proj1 (Metrics_scope_stable configuredWorld checkoutAddr
                  (set_scope (Some 0) checkoutCore)
                  [sel_Metrics; sel_Name; sel_Metrics] eq_refl eq_refl)).
  reflexivity.
Defined.

Lemma Metrics_concurrent_once_witness :
  cores checkoutWorld !! checkoutAddr = Some checkoutCore /\
  locked (scopeMux checkoutCore) = false /\
  scope checkoutCore = None /\
  exists c,
    run checkoutAddr [1; 0; 1; 2; 1] (init 3 checkoutWorld) = Some c /\
    length (threads c) = 3 /\
    exists more c',
      run checkoutAddr ([1; 0; 1; 2; 1] ++ more) (init 3 checkoutWorld)
        = Some c' /\ finished c'.
Proof.
  split; [reflexivity|]. split; [reflexivity|]. split; [reflexivity|].
  destruct (Metrics_concurrent_once checkoutAddr 3 checkoutWorld checkoutCore
              [1; 0; 1; 2; 1] eq_refl eq_refl eq_refl)
    as (c & Hrun & Hlen & Hmore & _).
  exists c. repeat split; assumption.
Defined.

(** C4 as the spec states it fails: [*serviceCore] has the method
    [Owner], which returns the owner of the checkout host, but a
    container populated with that host has no method [Owner]. *)
Lemma container_has_no_Owner :
  sel_Owner ∈ serviceCore_methods /\
  call sel_Owner checkoutAddr checkoutWorld
    = Ret (VString "payments") checkoutWorld /\
  container_call (H := demoCollaborators)
    (SetContainer (Some checkoutAddr) emptyContainer) sel_Owner = None /\
  ~ (forall m, m ∈ serviceCore_methods ->
       exists f,
         container_call (H := demoCollaborators)
           (SetContainer (Some checkoutAddr) emptyContainer) m = Some f /\
         f checkoutWorld = call m checkoutAddr checkoutWorld).
Proof.
  split; [|split; [|split]].
  - unfold serviceCore_methods. rewrite !elem_of_cons. auto.
  - reflexivity.
  - reflexivity.
  - intros Hall. destruct (Hall sel_Owner) as (f & Hf & _).
    + unfold serviceCore_methods. rewrite !elem_of_cons. auto.
    + discriminate Hf.
Qed.

Lemma container_delegates_witness :
  sel_Name ∈ ServiceHost_methods /\
  exists f,
    container_call (H := demoCollaborators)
      (SetContainer (Some checkoutAddr) emptyContainer) sel_Name = Some f /\
    f = call sel_Name checkoutAddr /\
    f checkoutWorld = Ret (VString "checkout") checkoutWorld.
Proof.
  assert (Hin : sel_Name ∈ ServiceHost_methods).
  { unfold ServiceHost_methods. rewrite !elem_of_cons. auto. }
  split; [exact Hin|].
  destruct (container_delegates (H := demoCollaborators)
              (Some checkoutAddr) emptyContainer sel_Name Hin)
    as (f & Hc & _ & Hcall & Hread & _).
  exists f. split; [exact Hc|]. split.
  - exact (Hcall checkoutAddr eq_refl).
  - apply (Hread checkoutAddr checkoutWorld checkoutCore eq_refl eq_refl).
    discriminate.
Defined.

Lemma Name_Roles_configured_witness :
  cores checkoutWorld !! checkoutAddr = Some checkoutCore /\
  ServiceName (standardConfig checkoutCore) = "checkout" /\
  ServiceRoles (standardConfig checkoutCore) = ["writer"; "api"] /\
  Name checkoutAddr checkoutWorld = Ret "checkout" checkoutWorld /\
  Roles checkoutAddr checkoutWorld = Ret ["writer"; "api"] checkoutWorld.
Proof.
  split; [reflexivity|]. split; [reflexivity|]. split; [reflexivity|].
  exact (proj2 (Name_Roles_configured checkoutWorld checkoutAddr checkoutCore
                  eq_refl) eq_refl eq_refl).
Defined.

Lemma immutable_reads_stable_witness :
  cores checkoutWorld !! checkoutAddr = Some checkoutCore /\
  locked (scopeMux checkoutCore) = false /\
  sel_Owner ∈ immutable_reads /\
  exists v vs w',
    call sel_Owner checkoutAddr checkoutWorld = Ret v checkoutWorld /\
    calls [sel_Metrics; sel_State] checkoutAddr checkoutWorld = Ret vs w' /\
    call sel_Owner checkoutAddr w' = Ret v w'.
Proof.
  assert (Hin : sel_Owner ∈ immutable_reads).
  { unfold immutable_reads. rewrite !elem_of_cons. auto. }
  split; [reflexivity|]. split; [reflexivity|]. split; [exact Hin|].
  exact (immutable_reads_stable checkoutWorld checkoutAddr checkoutCore
           sel_Owner [sel_Metrics; sel_State] eq_refl eq_refl Hin).
Defined.

Lemma accessors_total_witness :
  cores checkoutWorld !! checkoutAddr = Some checkoutCore /\
  locked (scopeMux checkoutCore) = false /\
  observer checkoutCore = None /\
  (forall m, exists v w', call m checkoutAddr checkoutWorld = Ret v w') /\
  GetObserver checkoutAddr checkoutWorld = Ret None checkoutWorld.
Proof.
  split; [reflexivity|]. split; [reflexivity|]. split; [reflexivity|].
  destruct (accessors_total checkoutWorld checkoutAddr checkoutCore
              eq_refl eq_refl) as (Hall & Hobs & _).
  split; [exact Hall|exact (Hobs eq_refl)].
Defined.

Lemma only_Metrics_writes_witness :
  cores checkoutWorld !! checkoutAddr = Some checkoutCore /\
  locked (scopeMux checkoutCore) = false /\
  sel_Items <> sel_Metrics /\
  call sel_Items checkoutAddr checkoutWorld
    = Ret (field_of sel_Items checkoutCore) checkoutWorld /\
  exists r w' s',
    Metrics checkoutAddr checkoutWorld = Ret r w' /\
    cores w' !! checkoutAddr = Some s' /\
    same_but_scope checkoutCore s'.
Proof.
  split; [reflexivity|]. split; [reflexivity|]. split; [discriminate|].
  destruct (only_Metrics_writes checkoutWorld checkoutAddr checkoutCore
              eq_refl eq_refl) as (Hread & r & w' & s' & HM & Hc & Hs & _).
  split.
  - apply Hread. discriminate.
  - exists r, w', s'. repeat split; try assumption; apply Hs.
Defined.

Lemma State_reads_last_write_witness :
  cores checkoutWorld !! checkoutAddr = Some checkoutCore /\
  locked (scopeMux checkoutCore) = false /\
  exists w1 vs w2,
    SetState checkoutAddr (2 : @ServiceState demoCollaborators) checkoutWorld
      = Ret tt w1 /\
    State checkoutAddr w1 = Ret 2 w1 /\
    calls [sel_Metrics; sel_Roles] checkoutAddr w1 = Ret vs w2 /\
    State checkoutAddr w2 = Ret 2 w2.
Proof.
  split; [reflexivity|]. split; [reflexivity|].
  exact (State_reads_last_write checkoutWorld checkoutAddr checkoutCore
           (2 : @ServiceState demoCollaborators) [sel_Metrics; sel_Roles]
           eq_refl eq_refl).
Defined.

Lemma Roles_ignores_roles_field_witness :
  cores checkoutWorld !! checkoutAddr = Some checkoutCore /\
  roles checkoutCore = ["ignored"] /\
  Roles checkoutAddr checkoutWorld = Ret ["writer"; "api"] checkoutWorld /\
  result_of (Roles checkoutAddr (with_roles ["reader"] checkoutAddr checkoutWorld))
    = result_of (Roles checkoutAddr checkoutWorld).
Proof.
  split; [reflexivity|]. split; [reflexivity|].
  destruct (Roles_ignores_roles_field checkoutWorld checkoutAddr checkoutCore
              ["reader"] eq_refl) as (HR & Hsame & _).
  split; [exact HR|exact Hsame].
Defined.

(** * The further properties at the checkout host *)

Lemma held_mutex_blocks_only_Metrics_witness :
  cores heldWorld !! checkoutAddr
    = Some (set_scopeMux {| locked := true |} checkoutCore) /\
  Metrics checkoutAddr heldWorld = Blocked /\
  call sel_Name checkoutAddr heldWorld = Ret (VString "checkout") heldWorld.
Proof.
  split; [reflexivity|].
  destruct (held_mutex_blocks_only_Metrics heldWorld checkoutAddr
              (set_scopeMux {| locked := true |} checkoutCore)
              eq_refl eq_refl) as [HM Hread].
  split; [exact HM|]. apply (Hread sel_Name). discriminate.
Defined.

Lemma nil_receiver_panics_witness :
  cores checkoutWorld !! 5 = None /\
  (forall m, call m 5 checkoutWorld = Panic) /\
  sched_step 5 0 (init 2 checkoutWorld) = None.
Proof.
  split; [reflexivity|].
  destruct (nil_receiver_panics checkoutWorld 5 eq_refl)
    as (Hcall & _ & Hstep & _).
  split; [exact Hcall|]. apply (Hstep 2 0). lia.
Defined.

Lemma calls_construct_once_witness :
  cores checkoutWorld !! checkoutAddr = Some checkoutCore /\
  locked (scopeMux checkoutCore) = false /\
  exists vs w',
    calls [sel_Name; sel_Metrics; sel_Metrics] checkoutAddr checkoutWorld
      = Ret vs w' /\
    scopes w' = [nullScope].
Proof.
  split; [reflexivity|]. split; [reflexivity|].
  destruct (calls_construct_once [sel_Name; sel_Metrics; sel_Metrics]
              checkoutWorld checkoutAddr checkoutCore eq_refl eq_refl)
    as (vs & w' & Hc & Hnew & _).
  exists vs, w'. split; [exact Hc|]. apply Hnew; [reflexivity|].
  rewrite !elem_of_cons. auto.
Defined.

Lemma calls_read_start_fields_witness :
  cores checkoutWorld !! checkoutAddr = Some checkoutCore /\
  locked (scopeMux checkoutCore) = false /\
  exists vs w',
    calls [sel_Metrics; sel_State] checkoutAddr checkoutWorld = Ret vs w' /\
    vs !! 1 = Some (VState (0 : @ServiceState demoCollaborators)).
Proof.
  split; [reflexivity|]. split; [reflexivity|].
  destruct (calls_read_start_fields [sel_Metrics; sel_State]
              checkoutWorld checkoutAddr checkoutCore eq_refl eq_refl)
    as (vs & w' & Hc & _ & Hvs).
  exists vs, w'. split; [exact Hc|].
  apply (Hvs 1 sel_State); [reflexivity|discriminate].
Defined.

Lemma hosts_get_own_scopes_witness :
  checkoutAddr <> billingAddr /\
  cores twoHostsWorld !! checkoutAddr = Some checkoutCore /\
  cores twoHostsWorld !! billingAddr = Some billingCore /\
  exists rp rq w',
    (a ← Metrics checkoutAddr; b ← Metrics billingAddr; mret (a, b))
      twoHostsWorld = Ret (Some rp, Some rq) w' /\
    rp <> rq.
Proof.
  split; [discriminate|]. split; [reflexivity|]. split; [reflexivity|].
  destruct (hosts_get_own_scopes twoHostsWorld checkoutAddr billingAddr
              checkoutCore billingCore)
    as (rp & rq & w' & Hrun & Hne & _); try reflexivity; [discriminate|].
  exists rp, rq, w'. split; assumption.
Defined.

Lemma container_shares_host_witness :
  cores checkoutWorld !! checkoutAddr = Some checkoutCore /\
  locked (scopeMux checkoutCore) = false /\
  exists f r w',
    container_call (SetContainer (Some checkoutAddr) emptyContainer)
      sel_Metrics = Some f /\
    f checkoutWorld = Ret (VScope (Some r)) w' /\
    Metrics checkoutAddr w' = Ret (Some r) w'.
Proof.
  split; [reflexivity|]. split; [reflexivity|].
  destruct (container_shares_host checkoutWorld checkoutAddr checkoutCore
              emptyContainer eq_refl eq_refl)
    as (f & r & w' & Hc & Hf & HM & _).
  exists f, r, w'. repeat split; assumption.
Defined.

Lemma Metrics_mutual_exclusion_witness :
  cores configuredWorld !! checkoutAddr
    = Some (set_scope (Some 0) checkoutCore) /\
  exists c,
    run checkoutAddr [2; 0; 2; 1] (init 3 configuredWorld) = Some c /\
    forall i j ki kj,
      threads c !! i = Some ki -> inCS ki = true ->
      threads c !! j = Some kj -> inCS kj = true -> i = j.
Proof.
  split; [reflexivity|].
  destruct (Metrics_mutual_exclusion checkoutAddr 3 configuredWorld
              (set_scope (Some 0) checkoutCore) [2; 0; 2; 1] eq_refl eq_refl)
    as (c & s' & Hrun & _ & Hexcl & _).
  exists c. split; assumption.
Defined.

Lemma Metrics_concurrent_configured_witness :
  cores configuredWorld !! checkoutAddr
    = Some (set_scope (Some 0) checkoutCore) /\
  scope (set_scope (Some 0) checkoutCore) = Some 0 /\
  exists c,
    run checkoutAddr [2; 0; 2; 1] (init 3 configuredWorld) = Some c /\
    scopes (heap c) = [backendScope].
Proof.
  split; [reflexivity|]. split; [reflexivity|].
  destruct (Metrics_concurrent_configured checkoutAddr 3 configuredWorld
              (set_scope (Some 0) checkoutCore) 0 [2; 0; 2; 1]
              eq_refl eq_refl eq_refl)
    as (c & Hrun & Hsc & _).
  exists c. split; assumption.
Defined.

Lemma concurrent_run_frame_witness :
  cores checkoutWorld !! checkoutAddr = Some checkoutCore /\
  exists c',
    run checkoutAddr [1; 0; 1; 1] (init 2 checkoutWorld) = Some c' /\
    call sel_Roles checkoutAddr (heap c')
      = Ret (VStrings ["writer"; "api"]) (heap c').
Proof.
  split; [reflexivity|].
  destruct (run checkoutAddr [1; 0; 1; 1] (init 2 checkoutWorld))
    as [c'|] eqn:Hrun; [|discriminate Hrun].
  exists c'. split; [reflexivity|].
  destruct (concurrent_run_frame checkoutAddr [1; 0; 1; 1]
              (init 2 checkoutWorld) c' checkoutCore eq_refl Hrun)
    as (Hread & _).
  apply (Hread sel_Roles). discriminate.
Defined.

Lemma Metrics_step_bound_witness :
  cores checkoutWorld !! checkoutAddr = Some checkoutCore /\
  exists c,
    run checkoutAddr [1; 0; 1; 1] (init 2 checkoutWorld) = Some c /\
    length (trace c) <= 12.
Proof.
  split; [reflexivity|].
  destruct (run checkoutAddr [1; 0; 1; 1] (init 2 checkoutWorld))
    as [c|] eqn:Hrun; [|discriminate Hrun].
  exists c. split; [reflexivity|].
  exact (proj2 (Metrics_step_bound checkoutAddr 2 checkoutWorld checkoutCore
                  [1; 0; 1; 1] c eq_refl Hrun)).
Defined.

Lemma Metrics_single_goroutine_witness :
  cores checkoutWorld !! checkoutAddr = Some checkoutCore /\
  locked (scopeMux checkoutCore) = false /\
  exists c r w',
    run checkoutAddr [0; 0; 0; 0; 0; 0] (init 1 checkoutWorld) = Some c /\
    Metrics checkoutAddr checkoutWorld = Ret r w' /\
    threads c = [Done r] /\ heap c = w'.
Proof.
  split; [reflexivity|]. split; [reflexivity|].
  exact (Metrics_single_goroutine checkoutWorld checkoutAddr checkoutCore
           eq_refl eq_refl).
Defined.

Lemma Metrics_concurrent_at_every_point_witness :
  cores checkoutWorld !! checkoutAddr = Some checkoutCore /\
  locked (scopeMux checkoutCore) = false /\
  scope checkoutCore = None /\
  exists c s',
    run checkoutAddr [1; 0; 1; 1] (init 2 checkoutWorld) = Some c /\
    cores (heap c) !! checkoutAddr = Some s' /\
    (scopes (heap c) = [] \/ scopes (heap c) = [nullScope]).
Proof.
  split; [reflexivity|]. split; [reflexivity|]. split; [reflexivity|].
  destruct (Metrics_concurrent_at_every_point checkoutAddr 2 checkoutWorld
              checkoutCore [1; 0; 1; 1] eq_refl eq_refl eq_refl)
    as (c & s' & Hrun & Hcore & Hsc & _).
  exists c, s'. repeat split; assumption.
Defined.
